(** * Dexcaliburn: the Frida agent (frida-scripts/index.ts)

    A shallow embedding of the agent that dumps dynamically loaded bytecode
    and records reflective method calls, together with the properties its
    specification states about it.

    JavaScript strings are modelled as [string] (code units below 256),
    arrays as [list], the [hookedMethods] object as a [gmap] seen through
    JavaScript's [in] operator, numbers that hold Java ints or counters as
    [Z], and the effects of the script (module-level state, [console.log],
    [send], the call-through to the hooked Java method, exceptions) by a
    state-and-exception monad over an explicit [World]. *)

From stdpp Require Import gmap strings list.
From Stdlib Require Import Ascii ZArith Lia.

Set Warnings "-register-all".
Local Open Scope Z_scope.

(** ** JavaScript string and array primitives used by the script *)

Module JS.

(** [s.split(sep)] for a one-character separator. The result is never
    empty: [''.split('.')] is [['']]. *)
Fixpoint split (sep : ascii) (s : string) : list string :=
  match s with
  | EmptyString => [EmptyString]
  | String c s' =>
      if decide (c = sep) then EmptyString :: split sep s'
      else match split sep s' with
           | [] => [String c EmptyString]
           | h :: t => String c h :: t
           end
  end.

(** [a.join(sep)] *)
Fixpoint join (sep : string) (l : list string) : string :=
  match l with
  | [] => EmptyString
  | [x] => x
  | x :: rest => x +:+ sep +:+ join sep rest
  end.

(** [a.slice(0, -1)]: every element but the last. *)
Fixpoint slice_init {A} (l : list A) : list A :=
  match l with
  | [] => []
  | [_] => []
  | x :: rest => x :: slice_init rest
  end.

(** [a.slice(-1)[0]]: the last element, [undefined] ([None]) on an empty
    array. *)
Fixpoint slice_last {A} (l : list A) : option A :=
  match l with
  | [] => None
  | [x] => Some x
  | _ :: rest => slice_last rest
  end.

(** White space and line terminators removed by [String.prototype.trim],
    among the code units below 256: TAB, LF, VT, FF, CR, SP and NBSP. *)
Definition is_white (c : ascii) : bool :=
  match c with
  | "009" | "010" | "011" | "012" | "013" | " " | "160" => true
  | _ => false
  end%char.

Fixpoint trim_start (s : string) : string :=
  match s with
  | EmptyString => EmptyString
  | String c s' => if is_white c then trim_start s' else s
  end.

Fixpoint trim_end (s : string) : string :=
  match s with
  | EmptyString => EmptyString
  | String c s' =>
      match trim_end s' with
      | EmptyString => if is_white c then EmptyString else String c EmptyString
      | t => String c t
      end
  end.

(** [s.trim()] *)
Definition trim (s : string) : string := trim_end (trim_start s).

(** [p] is a prefix of [s]. *)
Fixpoint starts_with (p s : string) : bool :=
  match p, s with
  | EmptyString, _ => true
  | String a p', String b s' => bool_decide (a = b) && starts_with p' s'
  | String _ _, EmptyString => false
  end.

(** [p] occurs somewhere in [s]. *)
Fixpoint includes (p s : string) : bool :=
  starts_with p s ||
  match s with
  | EmptyString => false
  | String _ s' => includes p s'
  end.

(** [s.match(/.*\.java/)] as a truth value. The pattern is not anchored and
    [.*] may match the empty string, so a match exists exactly when the
    five characters [.java] occur somewhere in [s]. *)
Definition match_dot_java (s : string) : bool := includes ".java" s.

(** The property names every plain object inherits from
    [Object.prototype]; [k in o] is true for them whatever [o] holds. *)
Definition Object_prototype_keys : list string :=
  [ "constructor"; "__defineGetter__"; "__defineSetter__"; "hasOwnProperty";
    "__lookupGetter__"; "__lookupSetter__"; "isPrototypeOf";
    "propertyIsEnumerable"; "toString"; "valueOf"; "__proto__";
    "toLocaleString" ].

Definition inherited (k : string) : bool :=
  bool_decide (k ∈ Object_prototype_keys).

(** [k in o] for a plain object [o] whose own properties are the map [o]. *)
Definition has_property {V} (k : string) (o : gmap string V) : bool :=
  bool_decide (is_Some (o !! k)) || inherited k.

(** [a.findIndex(p)], with [None] for the result [-1]. *)
Fixpoint findIndex {A} (p : A → bool) (l : list A) : option nat :=
  match l with
  | [] => None
  | x :: rest => if p x then Some O else S <$> findIndex p rest
  end.

End JS.

(** ** Data gathered during runtime *)

Inductive LocationSource := DEBUG | BINARY.

Record Method := mkMethod {
  className : string;
  methodName : string;
  prototype : string
}.

Record Location := mkLocation {
  callingMethod : string;
  position : Z;
  source : LocationSource
}.

Record Xref := mkXref {
  method : Method;
  location : Location;
  count : Z
}.

Record RunData := mkRunData {
  dexFiles : list string;
  xrefs : list Xref
}.

Global Instance LocationSource_eq_dec : EqDecision LocationSource.
Proof. solve_decision. Defined.
Global Instance Method_eq_dec : EqDecision Method.
Proof. solve_decision. Defined.
Global Instance Location_eq_dec : EqDecision Location.
Proof. solve_decision. Defined.
Global Instance Xref_eq_dec : EqDecision Xref.
Proof. solve_decision. Defined.
Global Instance RunData_eq_dec : EqDecision RunData.
Proof. solve_decision. Defined.

(** The string value of the enum, as it is serialised. *)
Definition LocationSource_value (s : LocationSource) : string :=
  match s with DEBUG => "debug" | BINARY => "binary" end.

(** ** The Java side, as the script sees it *)

(** Values that cross the bridge as arguments and results of hooked calls.
    [JByteBuffer content] is a [java.nio.ByteBuffer] that wraps an array
    holding [content], as [ByteBuffer.wrap] returns it: [array()] gives
    these bytes. [JByteBufferNoArray readOnly content] is a [ByteBuffer]
    with the same content and no accessible backing array, a read-only
    buffer or one that is not backed by an array at all, as a mapped
    buffer is: [array()] throws. *)
Inductive JValue :=
| JNull
| JString (s : string)
| JInt (z : Z)
| JBool (b : bool)
| JByteBuffer (content : list Byte.byte)
| JArray (elems : list JValue)
| JRef (id : nat)
| JByteBufferNoArray (readOnly : bool) (content : list Byte.byte).

(** A [java.lang.reflect.Method], through the accessors the tracker calls:
    [getDeclaringClass], [getName], [getReturnType] and [getParameterTypes],
    classes being given by their canonical names. *)
Record JMethod := mkJMethod {
  getDeclaringClass : string;
  getName : string;
  getReturnType : string;
  getParameterTypes : list string
}.

(** A [java.lang.StackTraceElement]; [getFileName] is [null] ([None]) when
    the frame carries no file name. *)
Record StackTraceElement := mkFrame {
  getMethodName : string;
  getLineNumber : Z;
  getFileName : option string
}.

(** How a hooked constructor gets at the bytecode it is given. *)
Inductive Strategy := FromFile | FromMemory (first_argument_is_array : bool).

(** One entry of the registry of [overrideClassLoaderInit]; [classLoader]
    is what [tryJavaUse] returned: the class, or [null]. *)
Record LoaderDescriptor := mkDescriptor {
  classLoader : option string;
  argsList : list string;
  hook : Strategy;
  debugString : string
}.

(** The calls the script replaces, each with the receiver and the arguments
    of one call: [Method.invoke], [loadClass] of a class loader, a
    class-loader constructor, and an overload of a dynamically hooked
    method. *)
Inductive Call :=
| CallInvoke (this : JMethod) (obj1 obj2 : JValue)
| CallLoadClass (classLoaderName : string) (this : JValue) (name : string)
| CallInit (d : LoaderDescriptor) (this : JValue) (args : list JValue)
| CallDynamic (loader : nat) (cls meth : string) (overload : list string)
              (this : JValue) (args : list JValue).

(** The implementations the script has installed. *)
Inductive Implementation :=
| ImplInvoke
| ImplLoadClass (classLoaderName : string)
| ImplInit (d : LoaderDescriptor)
| ImplDynamic (loader : nat) (cls meth : string) (overload : list string).

(** ** Messages *)

(** What the script hands to [send]. *)
Inductive Message :=
| MsgSetup
| MsgDex (filename : string) (data : list Byte.byte)
| MsgRunData (rd : RunData).

(** A message of the controller: its [type] and its [payload]. *)
Record Incoming := mkIncoming {
  msg_type : string;
  payload : string
}.

(** The callbacks the script passes to [recv]. *)
Inductive Callback := OnHooks | OnRunData.

(** ** Results and errors *)

Inductive Error :=
| TypeError (what : string)
| IOError (path : string)
| JavaException (what : string)
| JavaUseError (what : string).

Inductive Result (A : Type) :=
| Ok (a : A)
| Throw (e : Error).
Arguments Ok {A} a.
Arguments Throw {A} e.

Global Instance Strategy_eq_dec : EqDecision Strategy.
Proof. solve_decision. Defined.
Global Instance LoaderDescriptor_eq_dec : EqDecision LoaderDescriptor.
Proof. solve_decision. Defined.
Global Instance JMethod_eq_dec : EqDecision JMethod.
Proof. solve_decision. Defined.
Global Instance Error_eq_dec : EqDecision Error.
Proof. solve_decision. Defined.
Global Instance Callback_eq_dec : EqDecision Callback.
Proof. solve_decision. Defined.

(** ** The world the script runs in *)

(** The state of the application and of its runtime is kept abstract: it is
    whatever the original, un-hooked Java methods read and change.
    [reported] holds the exceptions that left a callback of the script
    when the runtime had called it: no code of the script is there to
    catch them, and the runtime reports each to the controller as an
    error. *)
Record World (App : Type) := mkWorld {
  runData : RunData;
  hookedMethods : gmap string (list string);
  console : list string;
  outbox : list Message;
  operations : list (string * Callback);
  pending : list Incoming;
  implementations : list Implementation;
  calls : list Call;
  process : App;
  reported : list Error
}.
Arguments mkWorld {App}.
Arguments runData {App}.
Arguments hookedMethods {App}.
Arguments console {App}.
Arguments outbox {App}.
Arguments operations {App}.
Arguments pending {App}.
Arguments implementations {App}.
Arguments calls {App}.
Arguments process {App}.
Arguments reported {App}.

(** A computation of the script: it may change the world, and it either
    returns a value or throws; what it changed before it threw stays
    changed. *)
Definition M (App A : Type) : Type := World App → Result A * World App.

Definition ret {App A} (a : A) : M App A := λ w, (Ok a, w).

Definition throw {App A} (e : Error) : M App A := λ w, (Throw e, w).

Definition bind {App A B} (m : M App A) (k : A → M App B) : M App B :=
  λ w, match m w with
       | (Ok a, w') => k a w'
       | (Throw e, w') => (Throw e, w')
       end.

(** [try { m } catch (e) { h e }] *)
Definition try_catch {App A} (m : M App A) (h : Error → M App A) : M App A :=
  λ w, match m w with
       | (Ok a, w') => (Ok a, w')
       | (Throw e, w') => h e w'
       end.

Definition get {App} : M App (World App) := λ w, (Ok w, w).

Definition modify {App} (f : World App → World App) : M App unit :=
  λ w, (Ok tt, f w).

Notation "'let*' x ':=' m 'in' k" := (bind m (λ x, k))
  (at level 10, x name, m at level 100, k at level 200).
Notation "m '>>' k" := (bind m (λ _, k))
  (at level 100, k at level 200, right associativity).

(** [l.forEach(f)], and [for (let x of l) ...]. *)
Fixpoint forEach {App A} (f : A → M App unit) (l : list A) : M App unit :=
  match l with
  | [] => ret tt
  | x :: rest => f x >> forEach f rest
  end.

(** Field updates. *)
Definition set_runData {App} (f : RunData → RunData) (w : World App) : World App :=
  mkWorld (f (runData w)) (hookedMethods w) (console w) (outbox w)
          (operations w) (pending w) (implementations w) (calls w) (process w)
          (reported w).

Definition set_hookedMethods {App}
    (f : gmap string (list string) → gmap string (list string))
    (w : World App) : World App :=
  mkWorld (runData w) (f (hookedMethods w)) (console w) (outbox w)
          (operations w) (pending w) (implementations w) (calls w) (process w)
          (reported w).

Definition set_console {App} (f : list string → list string) (w : World App) : World App :=
  mkWorld (runData w) (hookedMethods w) (f (console w)) (outbox w)
          (operations w) (pending w) (implementations w) (calls w) (process w)
          (reported w).

Definition set_outbox {App} (f : list Message → list Message) (w : World App) : World App :=
  mkWorld (runData w) (hookedMethods w) (console w) (f (outbox w))
          (operations w) (pending w) (implementations w) (calls w) (process w)
          (reported w).

Definition set_operations {App}
    (f : list (string * Callback) → list (string * Callback))
    (w : World App) : World App :=
  mkWorld (runData w) (hookedMethods w) (console w) (outbox w)
          (f (operations w)) (pending w) (implementations w) (calls w) (process w)
          (reported w).

Definition set_pending {App} (f : list Incoming → list Incoming) (w : World App) : World App :=
  mkWorld (runData w) (hookedMethods w) (console w) (outbox w)
          (operations w) (f (pending w)) (implementations w) (calls w) (process w)
          (reported w).

Definition set_implementations {App}
    (f : list Implementation → list Implementation) (w : World App) : World App :=
  mkWorld (runData w) (hookedMethods w) (console w) (outbox w)
          (operations w) (pending w) (f (implementations w)) (calls w) (process w)
          (reported w).

Definition set_calls_process {App} (cs : list Call) (a : App) (w : World App) : World App :=
  mkWorld (runData w) (hookedMethods w) (console w) (outbox w)
          (operations w) (pending w) (implementations w) cs a (reported w).

Definition set_reported {App} (f : list Error → list Error) (w : World App) : World App :=
  mkWorld (runData w) (hookedMethods w) (console w) (outbox w)
          (operations w) (pending w) (implementations w) (calls w) (process w)
          (f (reported w)).

(** The module-level state when the script is loaded. *)
Definition initial {App} (a : App) : World App :=
  mkWorld (mkRunData [] []) ∅ [] [] [] [] [] [] a [].

(** ** utils: logging *)

Definition LOG_LEVEL : Z := 1.

Definition console_log {App} (message : string) : M App unit :=
  modify (set_console (λ c, c ++ [message])).

Definition log {App} (message : string) : M App unit :=
  if bool_decide (LOG_LEVEL > 0) then console_log message else ret tt.

Definition log2 {App} (message : string) : M App unit :=
  if bool_decide (LOG_LEVEL > 1) then console_log message else ret tt.

(** [send(message, data)] *)
Definition send {App} (m : Message) : M App unit :=
  modify (set_outbox (λ o, o ++ [m])).

(** ** The script *)

(** An exception of a pure step, thrown into a computation. *)
Definition lift {App A} (r : Result A) : M App A :=
  match r with
  | Ok a => ret a
  | Throw e => throw e
  end.

(** *** captureInvokeCalls: what is recorded *)

(** The predicate handed to [findIndex]. *)
Definition same_xref (m : Method) (l : Location) (xref : Xref) : bool :=
  bool_decide (className (method xref) = className m)
  && bool_decide (methodName (method xref) = methodName m)
  && bool_decide (prototype (method xref) = prototype m)
  && bool_decide (callingMethod (location xref) = callingMethod l)
  && bool_decide (position (location xref) = position l)
  && bool_decide (source (location xref) = source l).

(** [xref.count += 1]. A count is a JavaScript number that holds an
    integer: it starts at 1, and adding 1 to it is exact as long as it is
    below 2^53. In a table that was filled from the empty table, a count
    is at most the number of the calls recorded. *)
Definition increment (xref : Xref) : Xref :=
  mkXref (method xref) (location xref) (count xref + 1).

(** The update of [runData.xrefs] for one reflexive call. *)
Definition record_xref (m : Method) (l : Location) (xrefs : list Xref) : list Xref :=
  match JS.findIndex (same_xref m l) xrefs with
  | None => xrefs ++ [mkXref m l 1]
  | Some xref_index => alter increment xref_index xrefs
  end.

(** The reflexively invoked method, as the tracker describes it. *)
Definition method_of (this : JMethod) : Method :=
  mkMethod (getDeclaringClass this) (getName this)
    (getReturnType this +:+ "(" +:+ JS.join ", " (getParameterTypes this) +:+ ")").

(** The calling method, from the fourth frame of the stack trace. A Java
    accessor called on [trace[3]] throws when the trace is that short, and
    [filename.match] throws when the file name is [null]. *)
Definition location_of (trace : list StackTraceElement) : Result Location :=
  match trace !! 3%nat with
  | None => Throw (TypeError "undefined is not a Java object")
  | Some frame =>
      let callingMethod := getMethodName frame in
      let position := getLineNumber frame in
      match getFileName frame with
      | None => Throw (TypeError "cannot read property 'match' of null")
      | Some filename =>
          let source := if JS.match_dot_java filename then DEBUG else BINARY in
          Ok (mkLocation callingMethod position source)
      end
  end.

(** *** fetchHookConfig: the body of the callback *)

(** One line of the payload, folded into [hookedMethods]. When [className]
    names a property that [hookedMethods] only inherits, the value found
    there has no [push]. *)
Definition add_hook (line : string) (hookedMethods : gmap string (list string))
    : Result (gmap string (list string)) :=
  let className := JS.join "." (JS.slice_init (JS.split "." line)) in
  match JS.slice_last (JS.split "." line) with
  | None => Throw (TypeError "split returned an empty array")
  | Some methodName =>
      if JS.has_property className hookedMethods then
        match hookedMethods !! className with
        | Some methods => Ok (<[className := methods ++ [methodName]]> hookedMethods)
        | None => Throw (TypeError "push is not a function")
        end
      else Ok (<[className := [methodName]]> hookedMethods)
  end.

(** The callback of [forEach], on one line. *)
Definition on_line {App} (line : string) : M App unit :=
  let* w := get in
  let* h := lift (add_hook line (hookedMethods w)) in
  modify (set_hookedMethods (λ _, h)).

Definition on_hooks {App} (payload : string) : M App unit :=
  if bool_decide (payload = "") then ret tt
  else forEach on_line (JS.split "010" (JS.trim payload)).

(** *** setupExitHandler: the body of the callback *)

Definition on_rundata {App} : M App unit :=
  let* w := get in
  send (MsgRunData (runData w)).

(** *** recv and the delivery of messages

    [recv(type, callback)] of the Frida runtime asks for the next message of
    that type, and returns the pending operation, which [fetchHookConfig]
    waits on: the runtime keeps the callback until it has handed it one
    message, and keeps a message until a callback asks for its type. The
    script gives a type to each of its two calls of [recv]. *)

Definition run_callback {App} (cb : Callback) (msg : Incoming) : M App unit :=
  match cb with
  | OnHooks => on_hooks (payload msg)
  | OnRunData => on_rundata
  end.

(** The first callback waiting for [type], and the callbacks left. *)
Fixpoint take_operation (type : string) (ops : list (string * Callback))
    : option (Callback * list (string * Callback)) :=
  match ops with
  | [] => None
  | (t, cb) :: rest =>
      if bool_decide (t = type) then Some (cb, rest)
      else '(found, rest') ← take_operation type rest; Some (found, (t, cb) :: rest')
  end.

Definition dispatch {App} (msg : Incoming) : M App unit :=
  let* w := get in
  match take_operation (msg_type msg) (operations w) with
  | None => modify (set_pending (λ p, p ++ [msg]))
  | Some (cb, rest) =>
      modify (set_operations (λ _, rest)) >> run_callback cb msg
  end.

Definition dispatchMessages {App} : M App unit :=
  let* w := get in
  modify (set_pending (λ _, [])) >> forEach dispatch (pending w).

Definition recv {App} (type : string) (cb : Callback) : M App unit :=
  modify (set_operations (λ ops, ops ++ [(type, cb)])) >> dispatchMessages.

(** The runtime reports an exception that nothing caught. *)
Definition report {App} (e : Error) : M App unit :=
  modify (set_reported (λ l, l ++ [e])).

(** A message of the controller reaches the script: the runtime calls its
    message handler, which hands the message to the callback that waits
    for it. An exception that leaves the callback leaves the handler too,
    and the runtime, which called it, reports it; the operation is
    completed all the same. *)
Definition handleMessage {App} (msg : Incoming) : M App unit :=
  try_catch (modify (set_pending (λ p, p ++ [msg])) >> dispatchMessages) report.

(** [fetchHookConfig]: [wait()] blocks until the operation is completed,
    that is until the controller's answer, [hooks], has come in and the
    callback has run on it; the callback runs from the message handler of
    the runtime, so that an exception it throws is reported there and
    [wait()] returns. *)
Definition fetchHookConfig {App} (hooks : string) : M App unit :=
  send MsgSetup >>
  recv "hooks" OnHooks >>
  handleMessage (mkIncoming "hooks" hooks).

Definition setupExitHandler {App} : M App unit :=
  recv "rundata" OnRunData.

Section Script.

Context {App : Type}.

(** What a Java method does when it runs un-hooked: its result, or the
    exception it throws, and its effect on the application. *)
Variable original : Call → App → Result JValue * App.

(** The classes [Java.use] finds on this runtime, and the overloads
    ([class], [method], argument types) it can resolve. *)
Variable available : string → bool.
Variable has_overload : string → string → list string → bool.

(** The class loaders [Java.enumerateClassLoadersSync] lists, and the
    overloads of a method of a class as seen through one of them ([None]
    when the class or the method is not found there). *)
Variable enumerateClassLoadersSync : App → list nat.
Variable overloads_through : App → nat → string → string → option (list (list string)).

(** How [console.log] prints an argument array. *)
Variable inspect : list JValue → string.

(** The file system and the digest, as the interface of the specification
    has them: [readBytes(path) -> bytes | fails(IOError)] and
    [hashBytes(bytes) -> digestString]. *)
Variable readBytes : App → string → option (list Byte.byte).
Variable hashBytes : list Byte.byte → string.

(** [method.call(this, ...args)] on the method a hook replaced: the
    original runs, and the call is recorded. What the original does is
    one step of the application: a hooked method that the original calls
    in turn is a further call of the application. *)
Definition call_original (c : Call) : M App JValue :=
  λ w, let '(r, a) := original c (process w) in
       (r, set_calls_process (calls w ++ [c]) a w).

(** *** captureInvokeCalls *)

(** The implementation given to [Method.invoke]; [trace] is what
    [Thread.currentThread().getStackTrace()] returns in it. *)
Definition invoke_implementation (trace : list StackTraceElement)
    (this : JMethod) (obj1 obj2 : JValue) : M App JValue :=
  log2 ("Invoked : " +:+ getName this) >>
  let method := method_of this in
  let* location := lift (location_of trace) in
  modify (set_runData (λ rd,
    mkRunData (dexFiles rd) (record_xref method location (xrefs rd)))) >>
  call_original (CallInvoke this obj1 obj2).

Definition install (i : Implementation) : M App unit :=
  modify (set_implementations (λ l, l ++ [i])).

(** *** tryOverride, tryJavaUse *)

Definition tryOverride (loader : M App unit) (loader_prototype : string) : M App unit :=
  try_catch loader (λ _, log2 ("Unable to override " +:+ loader_prototype)).

Definition Java_use (className : string) : M App string :=
  if available className then ret className
  else throw (JavaUseError className).

Definition tryJavaUse (className : string) : M App (option string) :=
  try_catch (let* c := Java_use className in ret (Some c))
            (λ _, log ("Could not find " +:+ className) >> ret None).

(** [cls.method.overload(...argTypes)] *)
Definition overload (cls meth : string) (argTypes : list string) : M App unit :=
  if has_overload cls meth argTypes then ret tt
  else throw (JavaUseError (cls +:+ "." +:+ meth)).

Definition captureInvokeCalls : M App unit :=
  let* Method := Java_use "java.lang.reflect.Method" in
  overload Method "invoke" ["java.lang.Object"; "[Ljava.lang.Object;"] >>
  install ImplInvoke.

(** *** hookDynamicMethod *)

(** The implementation given to every overload of a dynamically hooked
    method. *)
Definition dynamic_implementation (loader : nat) (className methodName : string)
    (argumentTypes : list string) (this : JValue) (args : list JValue) : M App JValue :=
  console_log ("Called : " +:+ methodName +:+ "(" +:+ JS.join ", " argumentTypes +:+ ")") >>
  console_log ("Args :  " +:+ inspect args) >>
  call_original (CallDynamic loader className methodName argumentTypes this args).

Definition hookDynamicMethod (className methodName : string) : M App unit :=
  let* w := get in
  forEach
    (λ loader,
       try_catch
         (match overloads_through (process w) loader className methodName with
          | None => throw (JavaUseError className)
          | Some overloads =>
              forEach (λ o, install (ImplDynamic loader className methodName o)) overloads
          end)
         (λ _, ret tt))
    (enumerateClassLoadersSync (process w)).

(** *** overrideloadClassForDynHooking *)

(** The implementation given to [loadClass(String)]. *)
Definition loadClass_implementation (classLoaderName : string) (this : JValue)
    (className : string) : M App JValue :=
  let* ret_ := call_original (CallLoadClass classLoaderName this className) in
  let* w := get in
  (if JS.has_property className (hookedMethods w) then
     match hookedMethods w !! className with
     | Some methods => forEach (hookDynamicMethod className) methods
     | None => throw (TypeError "forEach is not a function")
     end
   else ret tt) >>
  ret ret_.

Definition overrideloadClassForDynHooking : M App unit :=
  forEach
    (λ classLoaderName,
       let* classLoader := tryJavaUse ("dalvik.system." +:+ classLoaderName) in
       match classLoader with
       | None => ret tt
       | Some cls =>
           tryOverride
             (overload cls "loadClass" ["java.lang.String"] >>
              install (ImplLoadClass classLoaderName))
             (classLoaderName +:+ ".loadClass(String className)")
       end)
    ["InMemoryDexClassLoader"; "DexClassLoader"; "PathClassLoader";
     "DelegateLastClassLoader"].

(** *** utils: files, buffers and digests *)

(** Modelled from the spec: [sha256_fromFilePath] of utils is not among the
    sources; the digest of the bytes read at the path, the read failing
    with an [IOError]. *)
Definition sha256_fromFilePath (path : string) : M App string :=
  let* w := get in
  match readBytes (process w) path with
  | Some content => ret (hashBytes content)
  | None => throw (IOError path)
  end.

(** Modelled from the spec: [getJavaBufferFromPath] of utils is not among
    the sources; the bytes read at the path, the read failing with an
    [IOError]. *)
Definition getJavaBufferFromPath (path : string) : M App (list Byte.byte) :=
  let* w := get in
  match readBytes (process w) path with
  | Some content => ret content
  | None => throw (IOError path)
  end.

(** Modelled from the spec: [sha256_fromJavaBuffer] of utils is not among
    the sources; the digest of the bytes of the buffer. *)
Definition sha256_fromJavaBuffer (content : list Byte.byte) : string :=
  hashBytes content.

(** Modelled from the spec: [getJSBufferFromJavaBuffer] of utils is not
    among the sources; the same bytes, as a JavaScript buffer. *)
Definition getJSBufferFromJavaBuffer (content : list Byte.byte) : list Byte.byte :=
  content.

(** *** memoryClassLoaderHookSetup *)

Definition push_dexFile (filename : string) : M App unit :=
  modify (set_runData (λ rd, mkRunData (dexFiles rd ++ [filename]) (xrefs rd))).

(** The body of the loop over the buffers. [buffer.array()] comes first:
    it throws when the buffer has no accessible backing array, before
    anything is logged or sent; the bytes sent are those of the array,
    which for a buffer that wraps its array are the bytes digested. *)
Definition send_buffer (buffer : JValue) : M App unit :=
  match buffer with
  | JByteBuffer content =>
      let jsBuffer := getJSBufferFromJavaBuffer content in
      let filename := "memory-" +:+ sha256_fromJavaBuffer content in
      log ("Sending dex as '" +:+ filename +:+ "'") >>
      send (MsgDex filename jsBuffer) >>
      push_dexFile filename
  | JByteBufferNoArray readOnly _ =>
      throw (JavaException (if readOnly then "java.nio.ReadOnlyBufferException"
                            else "java.lang.UnsupportedOperationException"))
  | _ => throw (TypeError "buffer.array is not a function")
  end.

(** [args[0]], in an array of its own unless it is one already. *)
Definition bufferArray_of (first_argument_is_array : bool) (args : list JValue)
    : M App (list JValue) :=
  if first_argument_is_array then
    match args with
    | JArray buffers :: _ => ret buffers
    | _ => throw (TypeError "bufferArray is not iterable")
    end
  else
    match args with
    | buffer :: _ => ret [buffer]
    | [] => ret [JNull]
    end.

Definition memoryClassLoaderHook (first_argument_is_array : bool)
    (d : LoaderDescriptor) (this : JValue) (args : list JValue) : M App JValue :=
  log "Loading new dex from memory buffer" >>
  let* bufferArray := bufferArray_of first_argument_is_array args in
  forEach send_buffer bufferArray >>
  call_original (CallInit d this args).

(** *** fileClassLoaderHook *)

(** [dexPath.split('/').slice(-1)[0]] *)
Definition basename (dexPath : string) : string :=
  default "undefined" (JS.slice_last (JS.split "/" dexPath)).

Definition fileClassLoaderHook (d : LoaderDescriptor) (this : JValue)
    (args : list JValue) : M App JValue :=
  match args with
  | JString dexPath :: _ =>
      log ("Loading new dex from file: " +:+ dexPath) >>
      let* digest := sha256_fromFilePath dexPath in
      let filename := basename dexPath +:+ "-" +:+ digest in
      log ("Sending dex as '" +:+ filename +:+ "'") >>
      let* content := getJavaBufferFromPath dexPath in
      send (MsgDex filename (getJSBufferFromJavaBuffer content)) >>
      push_dexFile filename >>
      call_original (CallInit d this args)
  | JNull :: _ =>
      log "Loading new dex from file: null" >>
      throw (TypeError "cannot read property 'split' of null")
  | _ => throw (TypeError "dexPath.split is not a function")
  end.

(** *** overrideClassLoaderInit *)

(** [hook(init)]: the implementation a registry entry gives its
    constructor. *)
Definition init_implementation (d : LoaderDescriptor) (this : JValue)
    (args : list JValue) : M App JValue :=
  match hook d with
  | FromFile => fileClassLoaderHook d this args
  | FromMemory first_argument_is_array =>
      memoryClassLoaderHook first_argument_is_array d this args
  end.

Definition registry
    (BaseDexClassLoader InMemoryDexClassLoader DexClassLoader PathClassLoader
     DelegateLastClassLoader : option string) : list LoaderDescriptor :=
  [ mkDescriptor BaseDexClassLoader
      ["java.lang.String"; "java.io.File"; "java.lang.String"; "java.lang.ClassLoader"]
      FromFile
      "BaseDexClassLoader(String dexPath, File optimizedDirectory, String librarySearchPath, ClassLoader parent)";
    mkDescriptor InMemoryDexClassLoader
      ["[java.nio.ByteBuffer;"; "java.lang.String"; "java.lang.ClassLoader"]
      (FromMemory true)
      "InMemoryDexClassLoader(ByteBuffer[] dexBuffers, String librarySearchPath, ClassLoader parent)";
    mkDescriptor InMemoryDexClassLoader
      ["[java.nio.ByteBuffer"; "java.lang.ClassLoader"]
      (FromMemory true)
      "InMemoryDexClassLoader(ByteBuffer[] dexBuffers, ClassLoader parent)";
    mkDescriptor InMemoryDexClassLoader
      ["java.nio.ByteBuffer"; "java.lang.ClassLoader"]
      (FromMemory false)
      "InMemoryDexClassLoader(ByteBuffer dexBuffer, ClassLoader parent)";
    mkDescriptor DexClassLoader
      ["java.lang.String"; "java.lang.String"; "java.lang.String"; "java.lang.ClassLoader"]
      FromFile
      "DexClassLoader(String dexPath, String optimizedDirectory, String librarySearchPath, ClassLoader parent)";
    mkDescriptor PathClassLoader
      ["java.lang.String"; "java.lang.ClassLoader"]
      FromFile
      "PathClassLoader(String dexPath, ClassLoader parent)";
    mkDescriptor DelegateLastClassLoader
      ["java.lang.String"; "java.lang.ClassLoader"]
      FromFile
      "DelegateLastClassLoader(String dexPath, ClassLoader parent)";
    mkDescriptor DelegateLastClassLoader
      ["java.lang.String"; "java.lang.String"; "java.lang.ClassLoader"]
      FromFile
      "DelegateLastClassLoader(String dexPath, String librarySearchPath, ClassLoader parent)";
    mkDescriptor DelegateLastClassLoader
      ["java.lang.String"; "java.lang.String"; "java.lang.ClassLoader"; "boolean"]
      FromFile
      "DelegateLastClassLoader(String dexPath, String librarySearchPath, ClassLoader parent, boolean delegateResourceLoading)" ].

(** The function handed to [tryOverride] for one registry entry. *)
Definition override_init (d : LoaderDescriptor) : M App unit :=
  match classLoader d with
  | None => ret tt
  | Some cls => overload cls "$init" (argsList d) >> install (ImplInit d)
  end.

(** The loop over a registry. *)
Definition override_all (entries : list LoaderDescriptor) : M App unit :=
  forEach (λ d, tryOverride (override_init d) (debugString d)) entries.

Definition overrideClassLoaderInit : M App unit :=
  let* BaseDexClassLoader := tryJavaUse "dalvik.system.BaseDexClassLoader" in
  let* InMemoryDexClassLoader := tryJavaUse "dalvik.system.InMemoryDexClassLoader" in
  let* DexClassLoader := tryJavaUse "dalvik.system.DexClassLoader" in
  let* PathClassLoader := tryJavaUse "dalvik.system.PathClassLoader" in
  let* DelegateLastClassLoader := tryJavaUse "dalvik.system.DelegateLastClassLoader" in
  override_all
    (registry BaseDexClassLoader InMemoryDexClassLoader DexClassLoader
       PathClassLoader DelegateLastClassLoader).

(** *** Java.perform *)

Definition main (hooks : string) : M App unit :=
  fetchHookConfig hooks >>
  setupExitHandler >>
  overrideloadClassForDynHooking >>
  overrideClassLoaderInit >>
  captureInvokeCalls.

(** *** The application calls a hooked method *)

(** The implementation that answers a call; [trace] is the stack of the
    calling thread, as [getStackTrace] reports it inside the
    implementation. *)
Definition implementation (trace : list StackTraceElement) (c : Call) : M App JValue :=
  match c with
  | CallInvoke this obj1 obj2 => invoke_implementation trace this obj1 obj2
  | CallLoadClass classLoaderName this name =>
      loadClass_implementation classLoaderName this name
  | CallInit d this args => init_implementation d this args
  | CallDynamic loader cls meth o this args =>
      dynamic_implementation loader cls meth o this args
  end.

(** The same call on a process without the script. *)
Definition unhooked (c : Call) : M App JValue :=
  λ w, let '(r, a) := original c (process w) in (r, set_calls_process (calls w) a w).

(** The reflexive calls of a run, each with the stack it is made on. *)
Record Invocation := mkInvocation {
  inv_trace : list StackTraceElement;
  inv_this : JMethod;
  inv_obj1 : JValue;
  inv_obj2 : JValue
}.

Definition invoke (inv : Invocation) : M App JValue :=
  invoke_implementation (inv_trace inv) (inv_this inv) (inv_obj1 inv) (inv_obj2 inv).

(** The world after the application made these reflexive calls, one after
    the other; a call that throws leaves the world as it was when it
    threw. *)
Definition after_invocations (invs : list Invocation) (w : World App) : World App :=
  fold_left (λ w inv, (invoke inv w).2) invs w.

(** The world after the application made these calls of hooked methods,
    each on its stack, one after the other. *)
Definition after_calls (events : list (list StackTraceElement * Call))
    (w : World App) : World App :=
  fold_left (λ w e, (implementation e.1 e.2 w).2) events w.

End Script.

(** ** Vocabulary of the properties *)

(** The six fields that identify a record of the cross-reference table. *)
Definition xref_key (x : Xref) : Method * Location := (method x, location x).

Definition has_key (k : Method * Location) (x : Xref) : bool :=
  bool_decide (xref_key x = k).

(** The key under which the tracker records a reflexive call, when it gets
    as far as recording it. *)
Definition tracked (inv : Invocation) : option (Method * Location) :=
  match location_of (inv_trace inv) with
  | Ok l => Some (method_of (inv_this inv), l)
  | Throw _ => None
  end.


(** The count the table holds for a key, 0 when it holds no record. *)
Definition count_of (k : Method * Location) (t : list Xref) : Z :=
  match filter (λ x, has_key k x = true) t with
  | [] => 0
  | x :: _ => count x
  end.

(** ** The form of a configuration line *)

Fixpoint all_chars (p : ascii → bool) (s : string) : bool :=
  match s with
  | EmptyString => true
  | String c s' => p c && all_chars p s'
  end.

(** No dot occurs in [s]. *)
Definition no_dot (s : string) : bool :=
  all_chars (λ c, negb (bool_decide (c = "."%char))) s.

(** The characters of a Java identifier: letters, digits, [_] and [$]. *)
Definition name_char (c : ascii) : bool :=
  let n := N_of_ascii c in
  ((48 <=? n) && (n <=? 57) || (65 <=? n) && (n <=? 90)
   || (97 <=? n) && (n <=? 122) || (n =? 95) || (n =? 36))%N.

(** The characters of a qualified class name: those of identifiers, and
    the dot between them. *)
Definition class_char (c : ascii) : bool :=
  name_char c || bool_decide (c = "."%char).

(** A class name with its package, as in [A.B.C]. *)
Definition qualified (cls : string) : bool :=
  all_chars class_char cls && JS.includes "." cls.

(** The line separator of the payload. *)
Definition newline : string := String "010" "".

(** One line of the payload: [fully.qualified.ClassName.methodName]. *)
Definition hook_line (cls meth : string) : string := cls +:+ "." +:+ meth.

(** The configuration as the specification reads it: for each class, the
    set of the method names listed for it. *)
Definition HookConfig (hookedMethods : gmap string (list string))
    : gmap string (gset string) :=
  list_to_set <$> hookedMethods.

(** ** A sample application

    A process whose state counts the Java methods that have run, and in
    which every method returns the same string. *)

Definition sample_original (c : Call) (n : nat) : Result JValue * nat :=
  (Ok (JString "result"), S n).

Definition sample_method : JMethod :=
  mkJMethod "com.example.Foo" "bar" "void" ["java.lang.String"; "int"].

(** The stack inside the implementation of [invoke], called from [caller]
    at [line] of a file named [file]. *)
Definition sample_trace (caller : string) (line : Z) (file : option string)
    : list StackTraceElement :=
  [ mkFrame "getThreadStackTrace" (-2) (Some "VMStack.java");
    mkFrame "getStackTrace" 1841 (Some "Thread.java");
    mkFrame "invoke" (-2) (Some "Method.java");
    mkFrame caller line file ].

Definition sample_invocation (caller : string) (line : Z) (file : option string)
    : Invocation :=
  mkInvocation (sample_trace caller line file) sample_method JNull (JArray []).

(** A file system with no readable file, one in which every file is empty,
    and a digest that is the same for every content. *)
Definition sample_unreadable (n : nat) (path : string) : option (list Byte.byte) :=
  None.

Definition sample_empty_files (n : nat) (path : string) : option (list Byte.byte) :=
  Some [].

Definition sample_digest (content : list Byte.byte) : string := "H".

(** The entry of the registry for [PathClassLoader]. *)
Definition sample_descriptor : LoaderDescriptor :=
  mkDescriptor (Some "dalvik.system.PathClassLoader")
    ["java.lang.String"; "java.lang.ClassLoader"] FromFile
    "PathClassLoader(String dexPath, ClassLoader parent)".

(** ** The file names of captured bytecode *)

(** No slash occurs in [s]. *)
Definition no_slash (s : string) : bool :=
  all_chars (λ c, negb (bool_decide (c = "/"%char))) s.

(** The [dex] messages among the messages sent, by file name. *)
Definition dex_filenames (ms : list Message) : list string :=
  omap (λ m, match m with MsgDex filename _ => Some filename | _ => None end) ms.

(** The world after a file was captured under [filename]. *)
Definition captured_file {App} (dexPath filename : string)
    (content : list Byte.byte) (w : World App) : World App :=
  set_runData (λ rd, mkRunData (dexFiles rd ++ [filename]) (xrefs rd))
    (set_outbox (λ o, o ++ [MsgDex filename content])
       (set_console
          (λ c, c ++ ["Loading new dex from file: " +:+ dexPath;
                      "Sending dex as '" +:+ filename +:+ "'"]) w)).


(** The world after a buffer was captured under [filename]. *)
Definition captured_buffer {App} (filename : string)
    (content : list Byte.byte) (w : World App) : World App :=
  set_runData (λ rd, mkRunData (dexFiles rd ++ [filename]) (xrefs rd))
    (set_outbox (λ o, o ++ [MsgDex filename content])
       (set_console
          (λ c, c ++ ["Loading new dex from memory buffer";
                      "Sending dex as '" +:+ filename +:+ "'"]) w)).

(** What the specification expects of a file hook whose read fails: the
    capture is dropped, and the constructor runs as it would un-hooked. *)
Definition survives_read_failure {App}
    (original : Call → App → Result JValue * App)
    (readBytes : App → string → option (list Byte.byte))
    (hashBytes : list Byte.byte → string)
    (d : LoaderDescriptor) (this : JValue) (dexPath : string)
    (rest : list JValue) (w : World App) : Prop :=
  readBytes (process w) dexPath = None →
  let c := CallInit d this (JString dexPath :: rest) in
  let r := fileClassLoaderHook original readBytes hashBytes d this
             (JString dexPath :: rest) w in
  dex_filenames (outbox r.2) = dex_filenames (outbox w)
  ∧ dexFiles (runData r.2) = dexFiles (runData w)
  ∧ calls r.2 = calls w ++ [c]
  ∧ r.1 = (unhooked original c w).1.

(** ** Registration *)

(** What [tryJavaUse] returns on a runtime. *)
Definition use (available : string → bool) (className : string) : option string :=
  if available className then Some className else None.

(** The constructor of a registry entry can be hooked: its class was found
    and the overload exists. *)
Definition resolved (has_overload : string → string → list string → bool)
    (d : LoaderDescriptor) : bool :=
  match classLoader d with
  | Some cls => has_overload cls "$init" (argsList d)
  | None => false
  end.

(** The class loaders [overrideClassLoaderInit] looks up, in order. *)
Definition loader_classes : list string :=
  [ "dalvik.system.BaseDexClassLoader"; "dalvik.system.InMemoryDexClassLoader";
    "dalvik.system.DexClassLoader"; "dalvik.system.PathClassLoader";
    "dalvik.system.DelegateLastClassLoader" ].

(** The registry on a runtime. *)
Definition registry_on (available : string → bool) : list LoaderDescriptor :=
  registry (use available "dalvik.system.BaseDexClassLoader")
           (use available "dalvik.system.InMemoryDexClassLoader")
           (use available "dalvik.system.DexClassLoader")
           (use available "dalvik.system.PathClassLoader")
           (use available "dalvik.system.DelegateLastClassLoader").

(** A runtime with every class, and every overload but the one whose
    argument list reads [[java.nio.ByteBuffer]. *)
Definition sample_available (className : string) : bool := true.

Definition sample_overloads (cls meth : string) (argTypes : list string) : bool :=
  negb (bool_decide (argTypes = ["[java.nio.ByteBuffer"; "java.lang.ClassLoader"])).

(** ** The snapshot *)

(** The script answers the message [msg], received in the world [w], with
    the data gathered so far. *)
Definition answered {App} (msg : Incoming) (w : World App) : Prop :=
  outbox (handleMessage msg w).2 = outbox w ++ [MsgRunData (runData w)].

(** ** Transparency and the session *)

(** The call [c], made on the stack [trace], is answered by the script as
    the original method would have answered it: same result or exception,
    same effect on the application, the original called once with the
    receiver and the arguments of the call. *)
Definition transparent {App}
    (original : Call → App → Result JValue * App)
    (hooked : M App JValue) (c : Call) (w : World App) : Prop :=
  (hooked w).1 = (original c (process w)).1
  ∧ process (hooked w).2 = (original c (process w)).2
  ∧ calls (hooked w).2 = calls w ++ [c].

(** What only the protocol handlers touch: the callbacks waiting for a
    message, the messages waiting for a callback, the hook configuration. *)
Definition same_session {App} (w w' : World App) : Prop :=
  operations w' = operations w
  ∧ pending w' = pending w
  ∧ hookedMethods w' = hookedMethods w.

(** What neither the configuration nor the installation of the hooks
    touches: the callbacks, the pending messages, the messages sent, the
    data gathered, and the application. *)
Definition same_traffic {App} (w w' : World App) : Prop :=
  operations w' = operations w
  ∧ pending w' = pending w
  ∧ outbox w' = outbox w
  ∧ runData w' = runData w
  ∧ calls w' = calls w
  ∧ process w' = process w.

(** A computation after which the world is related to the world before,
    whether it returns or throws. *)
Definition keeps {App A} (R : relation (World App)) (m : M App A) : Prop :=
  ∀ w, R w (m w).2.

(** The rest of the sample runtime: one class loader, through which no
    configured method is found, and arguments printed as nothing. *)
Definition sample_loaders (n : nat) : list nat := [O].

Definition sample_dynamic (n : nat) (loader : nat) (cls meth : string)
    : option (list (list string)) := None.

Definition sample_inspect (args : list JValue) : string := "".

(** What only a call-through touches: the calls made of the original
    methods, and the application. *)
Definition same_application {App} (w w' : World App) : Prop :=
  calls w' = calls w ∧ process w' = process w.

(** A computation that returns, whatever the world. *)
Definition returns {App A} (m : M App A) : Prop :=
  ∀ w, ∃ a, (m w).1 = Ok a.

(** ** Further vocabulary *)

(** The last character of a string. *)
Fixpoint last_char (s : string) : option ascii :=
  match s with
  | EmptyString => None
  | String c EmptyString => Some c
  | String _ s' => last_char s'
  end.

(** A string that [trim] leaves as it is and that is not empty: it starts
    and ends with characters that are not white space. *)
Definition trimmed (s : string) : bool :=
  match s with
  | EmptyString => false
  | String c _ => negb (JS.is_white c)
  end
  && match last_char s with
     | Some c => negb (JS.is_white c)
     | None => false
     end.

(** The lines of a payload, given as pairs of a class and a method. *)
Definition payload_of (entries : list (string * string)) : string :=
  JS.join newline ((λ e, hook_line e.1 e.2) <$> entries).

(** The methods listed for a class, in the order of the lines. *)
Definition methods_for (cls : string) (entries : list (string * string))
    : list string :=
  (filter (λ e, e.1 = cls) entries).*2.

(** The characters of a line are those of names. *)
Definition plain_entry (e : string * string) : bool :=
  all_chars class_char e.1 && all_chars name_char e.2.

(** The elements of a list in the order in which they first occur. *)
Definition first_seen {A} `{EqDecision A} (l : list A) : list A :=
  foldl (λ seen x, if decide (x ∈ seen) then seen else seen ++ [x]) [] l.

(** The sum of the counts of a table. *)
Definition total_count (t : list Xref) : Z :=
  foldr (λ x n, count x + n) 0 t.

(** The methods of a class after more lines were read. *)
Definition with_methods (before : option (list string)) (more : list string)
    : option (list string) :=
  match more with
  | [] => before
  | _ => Some (default [] before ++ more)
  end.

(** The implementations [hookDynamicMethod] gives to a method: one for
    each overload found through each class loader, in the order of the
    class loaders. *)
Definition dynamic_hooks {App}
    (overloads_through : App → nat → string → string → option (list (list string)))
    (a : App) (loaders : list nat) (cls meth : string) : list Implementation :=
  flat_map
    (λ loader,
       match overloads_through a loader cls meth with
       | Some overloads => ImplDynamic loader cls meth <$> overloads
       | None => []
       end)
    loaders.

(** The name under which a buffer is sent. *)
Definition memory_name (hashBytes : list Byte.byte → string)
    (content : list Byte.byte) : string :=
  "memory-" +:+ hashBytes content.

(** The names of the class loaders whose [loadClass] gets hooked, as
    [overrideloadClassForDynHooking] lists them. *)
Definition loadClass_loaders : list string :=
  ["InMemoryDexClassLoader"; "DexClassLoader"; "PathClassLoader";
   "DelegateLastClassLoader"].

(** [loadClass(String)] of the class loader can be hooked on the runtime. *)
Definition loadClass_resolved (available : string → bool)
    (has_overload : string → string → list string → bool)
    (classLoaderName : string) : bool :=
  available ("dalvik.system." +:+ classLoaderName)
  && has_overload ("dalvik.system." +:+ classLoaderName) "loadClass" ["java.lang.String"].

(** [Method.invoke] can be hooked on the runtime. *)
Definition invoke_resolved (available : string → bool)
    (has_overload : string → string → list string → bool) : bool :=
  available "java.lang.reflect.Method"
  && has_overload "java.lang.reflect.Method" "invoke"
       ["java.lang.Object"; "[Ljava.lang.Object;"].

(** Every file name sent with bytecode is in [dexFiles], and the other way
    round, in the same order. *)
Definition dex_recorded {App} (w : World App) : Prop :=
  dex_filenames (outbox w) = dexFiles (runData w).

(** The world after the buffers of an array were sent, one after the
    other. *)
Definition sent_buffers {App} (hashBytes : list Byte.byte → string)
    (contents : list (list Byte.byte)) (w : World App) : World App :=
  set_runData
    (λ rd, mkRunData (dexFiles rd ++ (memory_name hashBytes <$> contents)) (xrefs rd))
    (set_outbox
       (λ o, o ++ ((λ c, MsgDex (memory_name hashBytes c) c) <$> contents))
       (set_console
          (λ l, l ++ ((λ c, "Sending dex as '" +:+ memory_name hashBytes c +:+ "'")
                        <$> contents))
          w)).

(** Between two worlds, the file names of the [dex] messages sent are the
    file names added to [dexFiles], in the same order. *)
Definition recorded_since {App} (w w' : World App) : Prop :=
  ∃ names,
    dex_filenames (outbox w') = dex_filenames (outbox w) ++ names
    ∧ dexFiles (runData w') = dexFiles (runData w) ++ names.

(** * Properties *)

(** ** The primitives, on examples *)

Example split_path :
  JS.split "/" "/data/app/base.apk" = [""; "data"; "app"; "base.apk"].
Proof. reflexivity. Qed.

Example split_empty : JS.split "." "" = [""].
Proof. reflexivity. Qed.

Example split_blank_line : JS.split "010" (String "a" (String "010" (String "010" "b")))
                           = ["a"; ""; "b"].
Proof. reflexivity. Qed.

Example join_types : JS.join ", " ["java.lang.String"; "int"] = "java.lang.String, int".
Proof. reflexivity. Qed.

Example slice_class :
  JS.join "." (JS.slice_init (JS.split "." "com.example.Foo.bar")) = "com.example.Foo"
  ∧ JS.slice_last (JS.split "." "com.example.Foo.bar") = Some "bar".
Proof. by split. Qed.

Example slice_no_dot :
  JS.join "." (JS.slice_init (JS.split "." "bar")) = ""
  ∧ JS.slice_last (JS.split "." "bar") = Some "bar".
Proof. by split. Qed.

Example trim_both : JS.trim "  a.b.c  " = "a.b.c".
Proof. reflexivity. Qed.

Example match_java : JS.match_dot_java "Main.java" = true.
Proof. reflexivity. Qed.

Example match_kotlin : JS.match_dot_java "Main.kt" = false.
Proof. reflexivity. Qed.

Example match_unanchored : JS.match_dot_java "Main.java.orig" = true.
Proof. reflexivity. Qed.

Example in_inherited : JS.has_property "toString" (∅ : gmap string (list string)) = true.
Proof. reflexivity. Qed.

Example in_absent : JS.has_property "com.example.Foo" (∅ : gmap string (list string)) = false.
Proof. reflexivity. Qed.

Example findIndex_first : JS.findIndex (λ n, bool_decide (n = 2%nat)) [1; 2; 3; 2]%nat = Some 1%nat.
Proof. reflexivity. Qed.

Example findIndex_none : JS.findIndex (λ n, bool_decide (n = 5%nat)) [1; 2; 3]%nat = None.
Proof. reflexivity. Qed.

(** ** Strings *)

Lemma app_cons c s t : String c s +:+ t = String c (s +:+ t).
Proof. reflexivity. Qed.

Lemma app_empty_l s : "" +:+ s = s.
Proof. reflexivity. Qed.

Lemma app_empty_r s : s +:+ "" = s.
Proof. induction s as [|c s IH]; [done|]. by rewrite app_cons, IH. Qed.

Lemma app_assoc' s t u : (s +:+ t) +:+ u = s +:+ t +:+ u.
Proof. induction s as [|c s IH]; [done|]. by rewrite !app_cons, IH. Qed.

Lemma all_chars_app p s t :
  all_chars p (s +:+ t) = all_chars p s && all_chars p t.
Proof.
  induction s as [|c s IH]; [done|].
  rewrite app_cons. simpl. rewrite IH. by destruct (p c).
Qed.

Lemma all_chars_impl (p q : ascii → bool) s :
  (∀ c, p c = true → q c = true) → all_chars p s = true → all_chars q s = true.
Proof.
  intros Hpq. induction s as [|c s IH]; [done|]. simpl.
  intros [Hc Hs]%andb_prop. rewrite (Hpq _ Hc). by apply IH.
Qed.

Lemma split_nonempty sep s : JS.split sep s ≠ [].
Proof.
  destruct s as [|c s]; simpl; [done|].
  case_decide; [done|]. by destruct (JS.split sep s).
Qed.

Lemma split_without sep s :
  all_chars (λ c, negb (bool_decide (c = sep))) s = true → JS.split sep s = [s].
Proof.
  induction s as [|c s IH]; simpl; [done|].
  intros [Hc Hs]%andb_prop. apply negb_true_iff, bool_decide_eq_false in Hc.
  rewrite decide_False by done. by rewrite IH.
Qed.

Lemma split_app sep a b :
  JS.split sep (a +:+ String sep b) = JS.split sep a ++ JS.split sep b.
Proof.
  induction a as [|c a IH].
  - rewrite app_empty_l. simpl. by rewrite decide_True.
  - rewrite app_cons. simpl. case_decide; rewrite IH; [done|].
    pose proof (split_nonempty sep a). by destruct (JS.split sep a).
Qed.

Lemma join_split sep s : JS.join (String sep "") (JS.split sep s) = s.
Proof.
  induction s as [|c s IH]; simpl; [done|].
  pose proof (split_nonempty sep s) as Hne.
  case_decide.
  - subst c. destruct (JS.split sep s) as [|h t]; [done|].
    change (JS.join (String sep "") ("" :: h :: t))
      with ("" +:+ String sep "" +:+ JS.join (String sep "") (h :: t)).
    by rewrite IH.
  - destruct (JS.split sep s) as [|h t]; [done|].
    destruct t as [|h' t]; simpl in *; [by rewrite IH|].
    rewrite app_cons. by rewrite IH.
Qed.

Lemma slice_init_snoc {A} (l : list A) x : JS.slice_init (l ++ [x]) = l.
Proof.
  induction l as [|y l IH]; [done|]. simpl.
  destruct (l ++ [x]) eqn:E; [by destruct l|]. by rewrite IH.
Qed.

Lemma slice_last_snoc {A} (l : list A) x : JS.slice_last (l ++ [x]) = Some x.
Proof.
  induction l as [|y l IH]; [done|]. simpl.
  destruct (l ++ [x]) eqn:E; [by destruct l|]. done.
Qed.

(** A line is split at its final dot: what follows it holds no dot. *)
Lemma split_final_dot cls meth :
  all_chars (λ c, negb (bool_decide (c = "."%char))) meth = true →
  JS.join "." (JS.slice_init (JS.split "." (hook_line cls meth))) = cls
  ∧ JS.slice_last (JS.split "." (hook_line cls meth)) = Some meth.
Proof.
  intros Hm. unfold hook_line.
  change ("." +:+ meth) with (String "." meth).
  rewrite split_app, (split_without _ meth) by done.
  rewrite slice_init_snoc, slice_last_snoc. split; [|done].
  apply (join_split "." cls).
Qed.

Lemma trim_start_id c s : JS.is_white c = false → JS.trim_start (String c s) = String c s.
Proof. intros H. simpl. by rewrite H. Qed.

Lemma trim_end_nonwhite s :
  s ≠ "" → all_chars (λ c, negb (JS.is_white c)) s = true → JS.trim_end s = s.
Proof.
  induction s as [|c s IH]; [done|]. intros _ [Hc Hs]%andb_prop.
  apply negb_true_iff in Hc. simpl.
  destruct s as [|c' s].
  - simpl. by rewrite Hc.
  - rewrite IH by done. done.
Qed.

Lemma trim_end_app a s :
  s ≠ "" → all_chars (λ c, negb (JS.is_white c)) s = true →
  JS.trim_end (a +:+ s) = a +:+ s.
Proof.
  intros Hne Hs. induction a as [|c a IH].
  - by apply trim_end_nonwhite.
  - rewrite app_cons. simpl. rewrite IH.
    destruct (a +:+ s) eqn:E; [|done].
    destruct a, s; done.
Qed.

(** ** The cross-reference table *)

Lemma same_xref_has_key m l x : same_xref m l x = has_key (m, l) x.
Proof.
  unfold same_xref, has_key, xref_key.
  destruct x as [[c n p] [cm ps sr] ct], m as [c' n' p'], l as [cm' ps' sr']; simpl.
  repeat case_bool_decide; simplify_eq; try done.
Qed.

Lemma has_key_increment k x : has_key k (increment x) = has_key k x.
Proof. done. Qed.

Lemma has_key_new k m l c : has_key k (mkXref m l c) = bool_decide ((m, l) = k).
Proof. done. Qed.

Lemma record_xref_same k t :
  filter (λ x, has_key k x = true) (record_xref k.1 k.2 t) =
  match filter (λ x, has_key k x = true) t with
  | [] => [mkXref k.1 k.2 1]
  | x :: rest => increment x :: rest
  end.
Proof.
  destruct k as [m l]. unfold record_xref. simpl.
  induction t as [|x t IH]; simpl.
  - rewrite filter_cons, has_key_new, bool_decide_true by done. done.
  - rewrite same_xref_has_key, (filter_cons _ x t).
    destruct (has_key (m, l) x) eqn:Hx; simpl.
    + rewrite filter_cons, has_key_increment, Hx. done.
    + destruct (JS.findIndex (same_xref m l) t) as [i|]; simpl in *;
        rewrite filter_cons, Hx; simpl; exact IH.
Qed.

Lemma record_xref_other k k' t :
  k ≠ k' →
  filter (λ x, has_key k' x = true) (record_xref k.1 k.2 t) =
  filter (λ x, has_key k' x = true) t.
Proof.
  intros Hne. destruct k as [m l]. unfold record_xref. simpl.
  induction t as [|x t IH]; simpl.
  - rewrite filter_cons, has_key_new. rewrite bool_decide_false by done. by case_decide.
  - rewrite same_xref_has_key, (filter_cons _ x t).
    destruct (has_key (m, l) x) eqn:Hx; simpl.
    + assert (has_key k' x = false) as Hx'.
      { unfold has_key in *. apply bool_decide_eq_true in Hx.
        apply bool_decide_eq_false. congruence. }
      rewrite filter_cons, has_key_increment, Hx'. by case_decide.
    + destruct (JS.findIndex (same_xref m l) t) as [i|]; simpl in *.
      * rewrite filter_cons. unfold alter in IH. by rewrite IH.
      * rewrite filter_cons, IH; done.
Qed.

Lemma count_of_record_xref k k' t :
  count_of k' (record_xref k.1 k.2 t) =
  count_of k' t + (if decide (k = k') then 1 else 0).
Proof.
  unfold count_of. case_decide as Hk.
  - subst k'. rewrite record_xref_same.
    destruct (filter _ t); simpl; lia.
  - rewrite record_xref_other by done. lia.
Qed.


Section Tracker.
Context {App : Type}.
Variable original : Call → App → Result JValue * App.

Lemma log2_silent (msg : string) (w : World App) : log2 msg w = (Ok tt, w).
Proof. reflexivity. Qed.

Lemma invoke_xrefs inv (w : World App) :
  xrefs (runData (invoke original inv w).2) =
  match tracked inv with
  | Some k => record_xref k.1 k.2 (xrefs (runData w))
  | None => xrefs (runData w)
  end.
Proof.
  unfold invoke, invoke_implementation, tracked, bind.
  rewrite log2_silent.
  destruct (location_of (inv_trace inv)) as [l|e]; simpl; [|done].
  unfold call_original. simpl.
  by destruct (original _ _).
Qed.




End Tracker.


(** The table after those three calls: two records, with counts 2 and 1. *)
Example xref_table_sample :
  xrefs (runData (after_invocations sample_original
                    [ sample_invocation "run" 42 (Some "Main.java");
                      sample_invocation "run" 42 (Some "Main.java");
                      sample_invocation "run" 43 (Some "Main.java") ]
                    (initial O))) =
  [ mkXref (mkMethod "com.example.Foo" "bar" "void(java.lang.String, int)")
           (mkLocation "run" 42 DEBUG) 2;
    mkXref (mkMethod "com.example.Foo" "bar" "void(java.lang.String, int)")
           (mkLocation "run" 43 DEBUG) 1 ].
Proof. by vm_compute. Qed.

(** ** captureInvokeCalls: the call-through *)

Section TrackerCalls.
Context {App : Type}.
Variable original : Call → App → Result JValue * App.

Lemma location_of_frame trace frame filename :
  trace !! 3%nat = Some frame →
  getFileName frame = Some filename →
  location_of trace =
  Ok (mkLocation (getMethodName frame) (getLineNumber frame)
        (if JS.match_dot_java filename then DEBUG else BINARY)).
Proof. intros Ht Hf. unfold location_of. by rewrite Ht, Hf. Qed.

(** When the location of the caller is found, the tracker records it and
    calls the original [invoke] with the receiver and the arguments it was
    given. *)
Lemma tracker_calls_through trace this obj1 obj2 l (w : World App) :
  location_of trace = Ok l →
  invoke_implementation original trace this obj1 obj2 w =
  call_original original (CallInvoke this obj1 obj2)
    (set_runData (λ rd, mkRunData (dexFiles rd)
                          (record_xref (method_of this) l (xrefs rd))) w).
Proof.
  intros Hl. unfold invoke_implementation, bind.
  rewrite log2_silent, Hl. simpl.
  by destruct (call_original _ _ _) as [[v|e] w'].
Qed.

(** C10. The tracker calls [match] on the file name of the caller's frame
    before it calls through. When that file name is [null] the call
    throws: the implementation ends there, with the world as it found it,
    so that nothing is recorded and the original [invoke] is not called. *)
Theorem tracker_null_file_name trace this obj1 obj2 frame (w : World App) :
  trace !! 3%nat = Some frame →
  getFileName frame = None →
  let r := invoke_implementation original trace this obj1 obj2 w in
  r = (Throw (TypeError "cannot read property 'match' of null"), w)
  ∧ calls r.2 = calls w
  ∧ process r.2 = process w
  ∧ runData r.2 = runData w.
Proof.
  intros Ht Hf r.
  assert (r = (Throw (TypeError "cannot read property 'match' of null"), w)) as ->.
  { unfold r, invoke_implementation, bind, location_of.
    by rewrite log2_silent, Ht, Hf. }
  done.
Qed.

End TrackerCalls.

Lemma tracker_null_file_name_witness :
  let r := invoke_implementation sample_original
             (sample_trace "run" 42 None) sample_method JNull (JArray [])
             (initial O) in
  r = (Throw (TypeError "cannot read property 'match' of null"), initial O)
  ∧ calls r.2 = calls (initial O)
  ∧ process r.2 = process (initial O)
  ∧ runData r.2 = runData (initial O).
Proof.
  apply (tracker_null_file_name sample_original (sample_trace "run" 42 None)
           sample_method JNull (JArray []) (mkFrame "run" 42 None) (initial O));
    reflexivity.
Defined.

(** [Method.invoke] called from a frame without a file name: un-hooked,
    the call returns its result and the method runs; with the tracker
    installed, the call throws a [TypeError], and the original [invoke] is
    never called. *)
Example tracker_not_transparent :
  let c := CallInvoke sample_method JNull (JArray []) in
  let w := initial O in
  let plain := unhooked sample_original c w in
  let hooked := invoke (App:=nat) sample_original (sample_invocation "run" 42 None) w in
  plain.1 = Ok (JString "result")
  ∧ process plain.2 = 1%nat
  ∧ hooked.1 = Throw (TypeError "cannot read property 'match' of null")
  ∧ calls hooked.2 = []
  ∧ process hooked.2 = 0%nat
  ∧ ¬ transparent sample_original
        (invoke sample_original (sample_invocation "run" 42 None)) c w.
Proof.
  repeat split; try by vm_compute.
  intros (H & _). by vm_compute in H.
Qed.

(** C9, at the input where it fails. A method is invoked from line 42 of
    [run], first from a frame whose file is [Main.java], then from a frame
    without a file name: the table holds the [DEBUG] record alone, and no
    [BINARY] record has been added. *)
Example no_record_without_file_name :
  let invs := [ sample_invocation "run" 42 (Some "Main.java");
                sample_invocation "run" 42 None ] in
  xrefs (runData (after_invocations sample_original invs (initial O))) =
  [ mkXref (mkMethod "com.example.Foo" "bar" "void(java.lang.String, int)")
           (mkLocation "run" 42 DEBUG) 1 ].
Proof. by vm_compute. Qed.

(** A frame whose file name is one without [.java] gives a [BINARY]
    record, kept apart from the [DEBUG] record of the same line. *)
Example binary_record_with_file_name :
  let invs := [ sample_invocation "run" 42 (Some "Main.java");
                sample_invocation "run" 42 (Some "SourceFile") ] in
  xrefs (runData (after_invocations sample_original invs (initial O))) =
  [ mkXref (mkMethod "com.example.Foo" "bar" "void(java.lang.String, int)")
           (mkLocation "run" 42 DEBUG) 1;
    mkXref (mkMethod "com.example.Foo" "bar" "void(java.lang.String, int)")
           (mkLocation "run" 42 BINARY) 1 ].
Proof. by vm_compute. Qed.

(** ** fetchHookConfig *)

Lemma name_char_plain c :
  name_char c = true →
  JS.is_white c = false ∧ c ≠ "."%char ∧ c ≠ "010"%char.
Proof. destruct c as [[] [] [] [] [] [] [] []]; by vm_compute. Qed.

Lemma class_char_plain c :
  class_char c = true → JS.is_white c = false ∧ c ≠ "010"%char.
Proof. destruct c as [[] [] [] [] [] [] [] []]; by vm_compute. Qed.

Lemma name_no_dot m : all_chars name_char m = true → no_dot m = true.
Proof.
  apply all_chars_impl. intros c [_ [H _]]%name_char_plain.
  by rewrite bool_decide_false.
Qed.

Lemma includes_dot_not_inherited cls :
  JS.includes "." cls = true → JS.inherited cls = false.
Proof.
  intros H. unfold JS.inherited. apply bool_decide_eq_false.
  unfold JS.Object_prototype_keys.
  rewrite !elem_of_cons, elem_of_nil.
  intros Hin. repeat destruct Hin as [->|Hin]; try done.
Qed.

Lemma add_hook_line cls meth h :
  no_dot meth = true →
  add_hook (hook_line cls meth) h =
  if JS.has_property cls h then
    match h !! cls with
    | Some methods => Ok (<[cls := methods ++ [meth]]> h)
    | None => Throw (TypeError "push is not a function")
    end
  else Ok (<[cls := [meth]]> h).
Proof.
  intros Hm. unfold add_hook.
  destruct (split_final_dot cls meth Hm) as [-> ->]. done.
Qed.

Section Hooks.
Context {App : Type}.

Lemma on_line_present cls meth methods (w : World App) :
  no_dot meth = true →
  hookedMethods w !! cls = Some methods →
  on_line (hook_line cls meth) w =
  (Ok tt, set_hookedMethods (λ h, <[cls := methods ++ [meth]]> h) w).
Proof.
  intros Hm Hcls. unfold on_line, bind, get. simpl.
  rewrite add_hook_line by done. unfold JS.has_property.
  rewrite Hcls. rewrite bool_decide_true by eauto. done.
Qed.

Lemma on_line_absent cls meth (w : World App) :
  no_dot meth = true →
  JS.inherited cls = false →
  hookedMethods w !! cls = None →
  on_line (hook_line cls meth) w =
  (Ok tt, set_hookedMethods (λ h, <[cls := [meth]]> h) w).
Proof.
  intros Hm Hinh Hcls. unfold on_line, bind, get. simpl.
  rewrite add_hook_line by done. unfold JS.has_property.
  rewrite Hcls, Hinh. rewrite bool_decide_false by (by intros [? ?]). done.
Qed.

Lemma forEach_lines_present cls meths methods (w : World App) :
  Forall (λ m, no_dot m = true) meths →
  hookedMethods w !! cls = Some methods →
  forEach on_line (hook_line cls <$> meths) w =
  (Ok tt, set_hookedMethods (λ h, <[cls := methods ++ meths]> h) w).
Proof.
  intros Hms. revert methods w.
  induction Hms as [|m meths Hm Hms IH]; intros methods w Hcls.
  - simpl. unfold ret. f_equal. destruct w; unfold set_hookedMethods; simpl in *.
    f_equal. rewrite app_nil_r. by rewrite insert_id.
  - simpl. unfold bind. rewrite (on_line_present _ _ methods) by done.
    rewrite (IH (methods ++ [m])).
    + f_equal. destruct w; unfold set_hookedMethods; simpl.
      f_equal. rewrite insert_insert_eq. by rewrite <- app_assoc.
    + simpl. by rewrite lookup_insert_eq.
Qed.

Lemma forEach_lines cls m meths (w : World App) :
  Forall (λ m, no_dot m = true) (m :: meths) →
  JS.inherited cls = false →
  hookedMethods w !! cls = None →
  forEach on_line (hook_line cls <$> m :: meths) w =
  (Ok tt, set_hookedMethods (λ h, <[cls := m :: meths]> h) w).
Proof.
  intros Hms Hinh Hcls. inversion_clear Hms as [|?? Hm Hms'].
  simpl. unfold bind. rewrite on_line_absent by done.
  rewrite (forEach_lines_present _ _ [m]) by (done || apply lookup_insert_eq).
  f_equal. destruct w; unfold set_hookedMethods; simpl.
  f_equal. by rewrite insert_insert_eq.
Qed.

(** The payload that lists the methods [meths] of one class. *)
Lemma split_lines (lines : list string) :
  lines ≠ [] →
  Forall (λ l, all_chars (λ c, negb (bool_decide (c = "010"%char))) l = true) lines →
  JS.split "010" (JS.join newline lines) = lines.
Proof.
  intros Hne Hl. induction Hl as [|l lines Hl Hls IH]; [done|].
  destruct lines as [|l' lines].
  - simpl. by apply split_without.
  - change (JS.join newline (l :: l' :: lines))
      with (l +:+ String "010" (JS.join newline (l' :: lines))).
    rewrite split_app, split_without by done.
    rewrite IH by done. done.
Qed.

Lemma hook_line_plain cls m :
  all_chars class_char cls = true → all_chars name_char m = true →
  all_chars (λ c, negb (bool_decide (c = "010"%char))) (hook_line cls m) = true.
Proof.
  intros Hc Hm. unfold hook_line.
  change ("." +:+ m) with (String "." m). rewrite all_chars_app.
  apply andb_true_intro; split; [|simpl].
  - revert Hc. apply all_chars_impl. intros c [_ H]%class_char_plain.
    by rewrite bool_decide_false.
  - revert Hm. apply all_chars_impl. intros c [_ [_ H]]%name_char_plain.
    by rewrite bool_decide_false.
Qed.

Lemma payload_end cls m meths :
  ∃ front last,
    JS.join newline (hook_line cls <$> m :: meths) = front +:+ "." +:+ last
    ∧ last ∈ m :: meths.
Proof.
  revert m. induction meths as [|m' meths IH]; intros m.
  - exists cls, m. split; [done|]. apply list_elem_of_here.
  - destruct (IH m') as (front & last & E & Hin).
    exists (hook_line cls m +:+ newline +:+ front), last. split.
    + change (JS.join newline (hook_line cls <$> m :: m' :: meths))
        with (hook_line cls m +:+ newline +:+
              JS.join newline (hook_line cls <$> m' :: meths)).
      rewrite E. by rewrite !app_assoc'.
    + by apply list_elem_of_further.
Qed.

Lemma payload_start cls m meths :
  all_chars class_char cls = true →
  ∃ c rest, JS.join newline (hook_line cls <$> m :: meths) = String c rest
            ∧ JS.is_white c = false.
Proof.
  intros Hc.
  assert (∃ c rest, hook_line cls m = String c rest ∧ JS.is_white c = false)
    as (c & rest & E & Hw).
  { unfold hook_line. destruct cls as [|c cls].
    - by exists "."%char, m.
    - exists c, (cls +:+ "." +:+ m). split; [done|].
      simpl in Hc. apply andb_prop in Hc as [Hc _].
      by apply class_char_plain in Hc as [? _]. }
  destruct meths as [|m' meths].
  - by exists c, rest.
  - exists c, (rest +:+ newline +:+ JS.join newline (hook_line cls <$> m' :: meths)).
    split; [|done].
    change (JS.join newline (hook_line cls <$> m :: m' :: meths))
      with (hook_line cls m +:+ newline +:+
            JS.join newline (hook_line cls <$> m' :: meths)).
    by rewrite E.
Qed.

Lemma trim_payload cls m meths :
  all_chars class_char cls = true →
  Forall (λ m, all_chars name_char m = true) (m :: meths) →
  JS.trim (JS.join newline (hook_line cls <$> m :: meths)) =
  JS.join newline (hook_line cls <$> m :: meths).
Proof.
  intros Hc Hms. unfold JS.trim.
  destruct (payload_start cls m meths Hc) as (c & rest & E & Hw).
  rewrite E, trim_start_id by done. rewrite <- E.
  destruct (payload_end cls m meths) as (front & last & E' & Hin).
  rewrite E'. apply trim_end_app; [done|].
  rewrite Forall_forall in Hms. specialize (Hms _ Hin).
  change ("." +:+ last) with (String "." last). simpl.
  revert Hms. apply all_chars_impl. intros c' [H _]%name_char_plain.
  by rewrite H.
Qed.

Lemma on_hooks_methods cls m meths (w : World App) :
  all_chars class_char cls = true →
  JS.inherited cls = false →
  Forall (λ m, all_chars name_char m = true) (m :: meths) →
  hookedMethods w !! cls = None →
  on_hooks (JS.join newline (hook_line cls <$> m :: meths)) w =
  (Ok tt, set_hookedMethods (λ h, <[cls := m :: meths]> h) w).
Proof.
  intros Hc Hinh Hms Hcls. unfold on_hooks.
  destruct (payload_start cls m meths Hc) as (c & rest & E & _).
  rewrite bool_decide_false by (by rewrite E).
  rewrite trim_payload, split_lines by
    (done || (rewrite Forall_fmap; eapply Forall_impl; [exact Hms|];
              intros; by apply hook_line_plain)).
  apply forEach_lines; [|done..].
  eapply Forall_impl; [exact Hms|]. intros. by apply name_no_dot.
Qed.

Lemma try_catch_returns {A} (m : M App A) h a (w w' : World App) :
  m w = (Ok a, w') → try_catch m h w = (Ok a, w').
Proof. intros H. unfold try_catch. by rewrite H. Qed.

(** The callback runs on the answer of the controller, in the world in
    which [setup] has been sent; what it throws is reported. *)
Lemma fetchHookConfig_initial (a : App) hooks :
  fetchHookConfig hooks (initial a) =
  try_catch (on_hooks hooks) report (set_outbox (λ _, [MsgSetup]) (initial a)).
Proof.
  unfold fetchHookConfig, handleMessage, recv, dispatchMessages, try_catch, bind,
    get, modify, send.
  simpl. unfold dispatch, bind, get, modify. simpl.
  by destruct (on_hooks hooks _) as [[[]|e] w'].
Qed.

End Hooks.

(** C6. [fetchHookConfig] splits the payload into lines and every line at
    its final dot. A payload of two lines that name the methods [m1] and
    [m2] of one qualified class [cls] leaves [hookedMethods] with the one
    key [cls], bound to both method names, so that the configuration maps
    [cls] to the set of [m1] and [m2]; the empty payload leaves
    [hookedMethods] empty. *)
Theorem hooks_payload_configuration {App} (a : App) (cls m1 m2 : string) :
  qualified cls = true →
  all_chars name_char m1 = true →
  all_chars name_char m2 = true →
  let payload := hook_line cls m1 +:+ newline +:+ hook_line cls m2 in
  let configured := λ hooks, hookedMethods (fetchHookConfig hooks (initial a)).2 in
  (∀ c m, no_dot m = true →
     JS.join "." (JS.slice_init (JS.split "." (hook_line c m))) = c
     ∧ JS.slice_last (JS.split "." (hook_line c m)) = Some m)
  ∧ JS.split "010" (JS.trim payload) = [hook_line cls m1; hook_line cls m2]
  ∧ (fetchHookConfig payload (initial a)).1 = Ok tt
  ∧ configured payload = {[cls := [m1; m2]]}
  ∧ HookConfig (configured payload) = {[cls := {[m1; m2]}]}
  ∧ (fetchHookConfig "" (initial a)).1 = Ok tt
  ∧ configured "" = ∅
  ∧ HookConfig (configured "") = ∅.
Proof.
  intros [Hcls Hdot]%andb_prop Hm1 Hm2 payload configured.
  assert (Hms : Forall (λ m, all_chars name_char m = true) [m1; m2])
    by (by repeat constructor).
  assert (Hlines : Forall
            (λ l, all_chars (λ c, negb (bool_decide (c = "010"%char))) l = true)
            (hook_line cls <$> [m1; m2])).
  { rewrite Forall_fmap. eapply Forall_impl; [exact Hms|].
    intros. by apply hook_line_plain. }
  assert (Hrun : fetchHookConfig payload (initial a) =
                 (Ok tt, set_hookedMethods (λ h, <[cls := [m1; m2]]> h)
                           (set_outbox (λ _, [MsgSetup]) (initial a)))).
  { rewrite fetchHookConfig_initial. apply try_catch_returns.
    apply (on_hooks_methods cls m1 [m2]); try done.
    by apply includes_dot_not_inherited. }
  split; [intros c m Hm; by apply split_final_dot|].
  split.
  { change payload with (JS.join newline (hook_line cls <$> [m1; m2])).
    rewrite trim_payload by done. by apply split_lines. }
  unfold configured. rewrite Hrun. simpl.
  split; [done|]. split; [done|]. split.
  { unfold HookConfig. rewrite insert_empty, map_fmap_singleton. f_equal.
    simpl. by rewrite (right_id_L ∅ (∪)). }
  split; [done|]. split; [done|].
  apply fmap_empty.
Qed.

Lemma hooks_payload_configuration_witness :
  let a := tt in
  let payload := hook_line "A.B.C" "m1" +:+ newline +:+ hook_line "A.B.C" "m2" in
  let configured := λ hooks, hookedMethods (fetchHookConfig hooks (initial a)).2 in
  (∀ c m, no_dot m = true →
     JS.join "." (JS.slice_init (JS.split "." (hook_line c m))) = c
     ∧ JS.slice_last (JS.split "." (hook_line c m)) = Some m)
  ∧ JS.split "010" (JS.trim payload) = [hook_line "A.B.C" "m1"; hook_line "A.B.C" "m2"]
  ∧ (fetchHookConfig payload (initial a)).1 = Ok tt
  ∧ configured payload = {[ "A.B.C" := ["m1"; "m2"] ]}
  ∧ HookConfig (configured payload) = {[ "A.B.C" := {[ "m1"; "m2" ]} ]}
  ∧ (fetchHookConfig "" (initial a)).1 = Ok tt
  ∧ configured "" = ∅
  ∧ HookConfig (configured "") = ∅.
Proof.
  apply (hooks_payload_configuration tt "A.B.C" "m1" "m2"); reflexivity.
Defined.

(** The scenario of the specification: one line. *)
Example hooks_single_line :
  hookedMethods (fetchHookConfig "com.example.Foo.bar" (initial tt)).2
  = {[ "com.example.Foo" := ["bar"] ]}.
Proof.
  rewrite fetchHookConfig_initial.
  change "com.example.Foo.bar"
    with (JS.join newline (hook_line "com.example.Foo" <$> ["bar"])).
  unfold try_catch. rewrite on_hooks_methods; [done..| |done].
  by repeat constructor.
Qed.

(** A class without a package and named like a property of
    [Object.prototype]: [in] finds the inherited property, which has no
    [push]. *)
Example hooks_inherited_name :
  add_hook "constructor.run" ∅ = Throw (TypeError "push is not a function").
Proof. reflexivity. Qed.

(** ** The class-loader hooks *)

Lemma basename_of_path dir name :
  no_slash name = true → basename (dir +:+ "/" +:+ name) = name.
Proof.
  intros Hn. unfold basename.
  change ("/" +:+ name) with (String "/" name).
  rewrite split_app, (split_without _ name) by done.
  by rewrite slice_last_snoc.
Qed.

Lemma basename_of_name name : no_slash name = true → basename name = name.
Proof. intros Hn. unfold basename. by rewrite split_without. Qed.

Section Loaders.
Context {App : Type}.
Variable original : Call → App → Result JValue * App.
Variable readBytes : App → string → option (list Byte.byte).
Variable hashBytes : list Byte.byte → string.

Lemma log_prints (msg : string) (w : World App) :
  log msg w = (Ok tt, set_console (λ c, c ++ [msg]) w).
Proof. reflexivity. Qed.

Lemma file_hook_captures d this dexPath rest content (w : World App) :
  readBytes (process w) dexPath = Some content →
  fileClassLoaderHook original readBytes hashBytes d this (JString dexPath :: rest) w =
  call_original original (CallInit d this (JString dexPath :: rest))
    (captured_file dexPath (basename dexPath +:+ "-" +:+ hashBytes content) content w).
Proof.
  intros Hr. unfold fileClassLoaderHook, bind.
  rewrite log_prints. unfold sha256_fromFilePath, getJavaBufferFromPath, bind, get.
  simpl. rewrite Hr. simpl.
  unfold captured_file, set_runData, set_outbox, set_console. simpl.
  rewrite <- !app_assoc. simpl. rewrite Hr. simpl. done.
Qed.

Lemma file_hook_fails d this dexPath rest (w : World App) :
  readBytes (process w) dexPath = None →
  fileClassLoaderHook original readBytes hashBytes d this (JString dexPath :: rest) w =
  (Throw (IOError dexPath),
   set_console (λ c, c ++ ["Loading new dex from file: " +:+ dexPath]) w).
Proof.
  intros Hr. unfold fileClassLoaderHook, bind.
  rewrite log_prints. unfold sha256_fromFilePath, bind, get.
  simpl. by rewrite Hr.
Qed.

End Loaders.

Section Captures.
Context {App : Type}.
Variable original : Call → App → Result JValue * App.
Variable readBytes : App → string → option (list Byte.byte).
Variable hashBytes : list Byte.byte → string.

Lemma call_original_keeps c (w : World App) :
  let r := call_original original c w in
  runData r.2 = runData w ∧ outbox r.2 = outbox w ∧ console r.2 = console w
  ∧ calls r.2 = calls w ++ [c]
  ∧ (r.1, process r.2) = original c (process w).
Proof. unfold call_original. by destruct (original c (process w)). Qed.

Lemma memory_hook_captures d this content rest (w : World App) :
  memoryClassLoaderHook original hashBytes false d this (JByteBuffer content :: rest) w =
  call_original original (CallInit d this (JByteBuffer content :: rest))
    (captured_buffer ("memory-" +:+ hashBytes content) content w).
Proof.
  unfold memoryClassLoaderHook, bind. rewrite log_prints. simpl.
  unfold captured_buffer, set_runData, set_outbox, set_console. simpl.
  rewrite <- !app_assoc. simpl.
  by destruct (call_original _ _ _) as [[v|e] w'].
Qed.

(** C4, as the code has it. When the file cannot be read the hook has
    logged the path and nothing else has happened: no [dex] message is
    sent and no file name is recorded. The [IOError] is not caught: it
    leaves the hook, which has not called the original constructor. *)
Theorem file_hook_io_error d this dexPath rest (w : World App) :
  readBytes (process w) dexPath = None →
  let r := fileClassLoaderHook original readBytes hashBytes d this
             (JString dexPath :: rest) w in
  r.1 = Throw (IOError dexPath)
  ∧ outbox r.2 = outbox w
  ∧ runData r.2 = runData w
  ∧ console r.2 = console w ++ ["Loading new dex from file: " +:+ dexPath]
  ∧ calls r.2 = calls w
  ∧ process r.2 = process w.
Proof. intros Hr r. unfold r. by rewrite file_hook_fails. Qed.

(** C5, as the code has it. The file name sent with the bytes of a file,
    and recorded in [dexFiles], is what follows the last slash of the
    path, then a dash, then the digest; a [!] in the path is a character
    like any other. *)
Theorem file_hook_filename d this dexPath rest content H (w : World App) :
  readBytes (process w) dexPath = Some content →
  hashBytes content = H →
  let r := fileClassLoaderHook original readBytes hashBytes d this
             (JString dexPath :: rest) w in
  outbox r.2 = outbox w ++ [MsgDex (basename dexPath +:+ "-" +:+ H) content]
  ∧ dexFiles (runData r.2) = dexFiles (runData w) ++ [basename dexPath +:+ "-" +:+ H]
  ∧ (∀ dir name, no_slash name = true → basename (dir +:+ "/" +:+ name) = name)
  ∧ basename "/data/app/base.apk!classes2.dex" +:+ "-" +:+ H
    = "base.apk!classes2.dex-" +:+ H.
Proof.
  intros Hr <- r. unfold r.
  rewrite (file_hook_captures _ _ _ _ _ _ _ content) by done.
  destruct (call_original_keeps
              (CallInit d this (JString dexPath :: rest))
              (captured_file dexPath (basename dexPath +:+ "-" +:+ hashBytes content)
                 content w)) as (-> & -> & _).
  repeat split; try done. intros. by apply basename_of_path.
Qed.

End Captures.

Lemma file_hook_io_error_witness :
  let r := fileClassLoaderHook sample_original sample_unreadable sample_digest
             sample_descriptor (JRef 1) [JString "/data/local/tmp/payload.dex"; JNull]
             (initial O) in
  r.1 = Throw (IOError "/data/local/tmp/payload.dex")
  ∧ outbox r.2 = []
  ∧ runData r.2 = mkRunData [] []
  ∧ console r.2 = [] ++ ["Loading new dex from file: " +:+ "/data/local/tmp/payload.dex"]
  ∧ calls r.2 = []
  ∧ process r.2 = O.
Proof.
  apply (file_hook_io_error sample_original sample_unreadable sample_digest
           sample_descriptor (JRef 1) "/data/local/tmp/payload.dex" [JNull] (initial O)).
  reflexivity.
Defined.

(** C4 fails where a file cannot be read: the original constructor is not
    called, and the caller gets the [IOError] in place of its result. *)
Lemma file_hook_io_error_counterexample :
  ¬ survives_read_failure sample_original sample_unreadable sample_digest
      sample_descriptor (JRef 1) "/data/local/tmp/payload.dex" [JNull] (initial O).
Proof.
  unfold survives_read_failure. intros H.
  destruct (H eq_refl) as (_ & _ & Hcalls & _). by vm_compute in Hcalls.
Qed.

Lemma file_hook_filename_witness :
  let r := fileClassLoaderHook sample_original sample_empty_files sample_digest
             sample_descriptor (JRef 1)
             [JString "/data/app/base.apk!classes2.dex"; JNull] (initial O) in
  outbox r.2 = [] ++ [MsgDex (basename "/data/app/base.apk!classes2.dex" +:+ "-" +:+ "H") []]
  ∧ dexFiles (runData r.2) = [] ++ [basename "/data/app/base.apk!classes2.dex" +:+ "-" +:+ "H"]
  ∧ (∀ dir name, no_slash name = true → basename (dir +:+ "/" +:+ name) = name)
  ∧ basename "/data/app/base.apk!classes2.dex" +:+ "-" +:+ "H"
    = "base.apk!classes2.dex-" +:+ "H".
Proof.
  apply (file_hook_filename sample_original sample_empty_files sample_digest
           sample_descriptor (JRef 1) "/data/app/base.apk!classes2.dex" [JNull] [] "H"
           (initial O)); reflexivity.
Defined.

(** C5 fails on its own example: the file name sent for
    [/data/app/base.apk!classes2.dex] is not [classes2.dex-H]. *)
Lemma file_hook_filename_counterexample :
  let r := fileClassLoaderHook sample_original sample_empty_files sample_digest
             sample_descriptor (JRef 1)
             [JString "/data/app/base.apk!classes2.dex"; JNull] (initial O) in
  sample_digest [] = "H"
  ∧ dex_filenames (outbox r.2) = ["base.apk!classes2.dex-H"]
  ∧ dex_filenames (outbox r.2) ≠ ["classes2.dex-H"].
Proof. by vm_compute. Qed.

(** ** The ids of captured bytecode *)

Lemma length_app_string s t :
  String.length (s +:+ t) = (String.length s + String.length t)%nat.
Proof. induction s as [|c s IH]; [done|]. rewrite app_cons. simpl. by rewrite IH. Qed.

Lemma app_cancel_r s s' t : s +:+ t = s' +:+ t → s = s'.
Proof.
  revert s'. induction s as [|c s IH]; intros [|c' s'] E.
  - done.
  - apply (f_equal String.length) in E.
    rewrite app_empty_l, app_cons in E. simpl in E.
    rewrite length_app_string in E. lia.
  - apply (f_equal String.length) in E.
    rewrite app_empty_l, app_cons in E. simpl in E.
    rewrite length_app_string in E. lia.
  - rewrite !app_cons in E. injection E as -> E. f_equal. by apply IH.
Qed.

Section Ids.
Context {App : Type}.
Variable original : Call → App → Result JValue * App.
Variable readBytes : App → string → option (list Byte.byte).
Variable hashBytes : list Byte.byte → string.

(** C8, as the code has it. The same bytes, loaded from a file and loaded
    from a buffer, are recorded under ids that end in the same digest: the
    id is the base name of the file, a dash and the digest for the file,
    and [memory], a dash and the digest for the buffer. The two ids differ
    exactly when the file is not itself named [memory]. *)
Theorem capture_ids d d' this this' dexPath rest rest' content
    (w w' : World App) :
  readBytes (process w) dexPath = Some content →
  let file := fileClassLoaderHook original readBytes hashBytes d this
                (JString dexPath :: rest) w in
  let memory := memoryClassLoaderHook original hashBytes false d' this'
                  (JByteBuffer content :: rest') w' in
  let file_id := basename dexPath +:+ "-" +:+ hashBytes content in
  let memory_id := "memory" +:+ "-" +:+ hashBytes content in
  dexFiles (runData file.2) = dexFiles (runData w) ++ [file_id]
  ∧ dexFiles (runData memory.2) = dexFiles (runData w') ++ [memory_id]
  ∧ dex_filenames (outbox file.2) = dex_filenames (outbox w) ++ [file_id]
  ∧ dex_filenames (outbox memory.2) = dex_filenames (outbox w') ++ [memory_id]
  ∧ (file_id ≠ memory_id ↔ basename dexPath ≠ "memory").
Proof.
  intros Hr file memory file_id memory_id.
  subst file memory file_id memory_id.
  rewrite (file_hook_captures _ _ _ _ _ _ _ content) by done.
  rewrite memory_hook_captures.
  destruct (call_original_keeps original
              (CallInit d this (JString dexPath :: rest))
              (captured_file dexPath (basename dexPath +:+ "-" +:+ hashBytes content)
                 content w)) as (-> & -> & _).
  destruct (call_original_keeps original
              (CallInit d' this' (JByteBuffer content :: rest'))
              (captured_buffer ("memory-" +:+ hashBytes content) content w'))
    as (-> & -> & _).
  split; [done|]. split; [done|].
  split; [simpl; unfold dex_filenames; by rewrite omap_app|].
  split; [simpl; unfold dex_filenames; by rewrite omap_app|].
  split.
  - intros Hne E. apply Hne. by rewrite E.
  - intros Hne E. apply Hne. by apply app_cancel_r in E.
Qed.

End Ids.

Lemma capture_ids_witness :
  let w := initial O in
  let file := fileClassLoaderHook sample_original sample_empty_files sample_digest
                sample_descriptor (JRef 1) [JString "/sdcard/payload.dex"; JNull] w in
  let memory := memoryClassLoaderHook sample_original sample_digest false
                  sample_descriptor (JRef 2) [JByteBuffer []; JNull] w in
  let file_id := basename "/sdcard/payload.dex" +:+ "-" +:+ sample_digest [] in
  let memory_id := "memory" +:+ "-" +:+ sample_digest [] in
  dexFiles (runData file.2) = dexFiles (runData w) ++ [file_id]
  ∧ dexFiles (runData memory.2) = dexFiles (runData w) ++ [memory_id]
  ∧ dex_filenames (outbox file.2) = dex_filenames (outbox w) ++ [file_id]
  ∧ dex_filenames (outbox memory.2) = dex_filenames (outbox w) ++ [memory_id]
  ∧ (file_id ≠ memory_id ↔ basename "/sdcard/payload.dex" ≠ "memory").
Proof.
  apply (capture_ids sample_original sample_empty_files sample_digest
           sample_descriptor sample_descriptor (JRef 1) (JRef 2)
           "/sdcard/payload.dex" [JNull] [JNull] [] (initial O) (initial O)).
  reflexivity.
Defined.

(** C8 fails for a file named [memory]: the empty file [/sdcard/memory] and
    the empty buffer are recorded under one and the same id, origin label
    included. *)
Lemma capture_ids_counterexample :
  let w := initial O in
  let file := fileClassLoaderHook sample_original sample_empty_files sample_digest
                sample_descriptor (JRef 1) [JString "/sdcard/memory"; JNull] w in
  let memory := memoryClassLoaderHook sample_original sample_digest false
                  sample_descriptor (JRef 2) [JByteBuffer []; JNull] w in
  dexFiles (runData file.2) = ["memory-H"]
  ∧ dexFiles (runData memory.2) = ["memory-H"]
  ∧ basename "/sdcard/memory" = "memory".
Proof. by vm_compute. Qed.

(** ** Registration of the class-loader hooks *)

Section Registration.
Context {App : Type}.
Variable available : string → bool.
Variable has_overload : string → string → list string → bool.

Lemma tryJavaUse_result className (w : World App) :
  tryJavaUse available className w =
  (Ok (use available className),
   if available className then w
   else set_console (λ c, c ++ ["Could not find " +:+ className]) w).
Proof.
  unfold tryJavaUse, try_catch, Java_use, use, bind.
  by destruct (available className).
Qed.

Lemma tryOverride_init d (w : World App) :
  tryOverride (override_init has_overload d) (debugString d) w =
  (Ok tt, if resolved has_overload d
          then set_implementations (λ l, l ++ [ImplInit d]) w else w).
Proof.
  unfold tryOverride, try_catch, override_init, resolved, overload, bind.
  destruct (classLoader d) as [cls|]; [|done].
  by destruct (has_overload cls "$init" (argsList d)).
Qed.

Lemma override_all_result entries (w : World App) :
  override_all has_overload entries w =
  (Ok tt, set_implementations
            (λ l, l ++ (ImplInit <$> filter (λ d, resolved has_overload d = true) entries)) w).
Proof.
  revert w. induction entries as [|d entries IH]; intros w.
  - simpl. unfold ret. f_equal. destruct w. unfold set_implementations. simpl.
    by rewrite app_nil_r.
  - unfold override_all in *. simpl. unfold bind at 1.
    rewrite tryOverride_init, IH, filter_cons.
    destruct (resolved has_overload d) eqn:Hd.
    + rewrite decide_True by done. f_equal. destruct w.
      unfold set_implementations. simpl. by rewrite <- app_assoc.
    + by rewrite decide_False by done.
Qed.

(** The world after [tryJavaUse] looked a class up. *)
Lemma reported_classes classes (w : World App) :
  fold_left
    (λ w cls, if available cls then w
              else set_console (λ c, c ++ ["Could not find " +:+ cls]) w)
    classes w =
  set_console
    (λ c, c ++ ((λ cls, "Could not find " +:+ cls) <$>
                  filter (λ cls, available cls = false) classes)) w.
Proof.
  revert w. induction classes as [|cls classes IH]; intros w.
  - destruct w. unfold set_console. simpl. by rewrite app_nil_r.
  - simpl. rewrite IH, filter_cons. destruct (available cls).
    + by rewrite decide_False by done.
    + rewrite decide_True by done. destruct w. unfold set_console. simpl.
      by rewrite <- app_assoc.
Qed.

Lemma overrideClassLoaderInit_result (w : World App) :
  overrideClassLoaderInit available has_overload w =
  (Ok tt,
   set_implementations
     (λ l, l ++ (ImplInit <$> filter (λ d, resolved has_overload d = true)
                                (registry_on available)))
     (set_console
        (λ c, c ++ ((λ cls, "Could not find " +:+ cls) <$>
                     filter (λ cls, available cls = false) loader_classes)) w)).
Proof.
  rewrite <- reported_classes.
  unfold overrideClassLoaderInit, bind.
  do 5 rewrite tryJavaUse_result.
  rewrite override_all_result. reflexivity.
Qed.

End Registration.

(** C7, as the code has it. [overrideClassLoaderInit] never throws, and it
    gives an implementation to the constructor of every registry entry
    whose class and overload are found on the runtime, whatever becomes of
    the other entries; an entry that is not found is skipped. A class that
    is not found is reported once, when it is looked up; an overload that
    is not found is reported through [log2], which prints nothing at this
    [LOG_LEVEL]. *)
Theorem registration_isolated {App} (available : string → bool)
    (has_overload : string → string → list string → bool) (w : World App) :
  let r := overrideClassLoaderInit available has_overload w in
  let hooked := filter (λ d, resolved has_overload d = true) (registry_on available) in
  r.1 = Ok tt
  ∧ implementations r.2 = implementations w ++ (ImplInit <$> hooked)
  ∧ (∀ d, d ∈ registry_on available → resolved has_overload d = true →
          ImplInit d ∈ implementations r.2)
  ∧ (∀ d, resolved has_overload d = false → ImplInit d ∉ implementations w →
          ImplInit d ∉ implementations r.2)
  ∧ console r.2 =
      console w ++ ((λ cls, "Could not find " +:+ cls) <$>
                      filter (λ cls, available cls = false) loader_classes)
  ∧ (∀ entries (w' : World App),
       override_all has_overload entries w' =
       (Ok tt, set_implementations
                 (λ l, l ++ (ImplInit <$>
                               filter (λ d, resolved has_overload d = true) entries))
                 w')).
Proof.
  intros r hooked. unfold r. rewrite overrideClassLoaderInit_result. simpl.
  split; [done|]. split; [done|]. split; [|split; [|split; [done|]]].
  - intros d Hd Hres. apply elem_of_app. right.
    apply list_elem_of_fmap. exists d. split; [done|].
    by apply list_elem_of_filter.
  - intros d Hres Hw [Hin|Hin]%elem_of_app; [done|].
    apply list_elem_of_fmap in Hin as (d' & [= <-] & Hd').
    apply list_elem_of_filter in Hd' as [Hd' _]. congruence.
  - intros entries w'. apply override_all_result.
Qed.

(** C7 fails on the report: on a runtime that lacks the overload of one
    entry, that entry is skipped and nothing at all is printed. *)
Lemma registration_isolated_counterexample :
  let r := overrideClassLoaderInit (App:=nat) sample_available sample_overloads (initial O) in
  let d := mkDescriptor (Some "dalvik.system.InMemoryDexClassLoader")
             ["[java.nio.ByteBuffer"; "java.lang.ClassLoader"] (FromMemory true)
             "InMemoryDexClassLoader(ByteBuffer[] dexBuffers, ClassLoader parent)" in
  registry_on sample_available !! 2%nat = Some d
  ∧ resolved sample_overloads d = false
  ∧ implementations r.2 =
      ImplInit <$> filter (λ e, e ≠ d) (registry_on sample_available)
  ∧ console r.2 = [].
Proof. by vm_compute. Qed.

(** ** setupExitHandler *)

Section Snapshot.
Context {App : Type}.

Lemma on_rundata_reads (w : World App) :
  on_rundata w = (Ok tt, set_outbox (λ o, o ++ [MsgRunData (runData w)]) w).
Proof. reflexivity. Qed.

Lemma setupExitHandler_registers (w : World App) :
  operations w = [] → pending w = [] →
  setupExitHandler w =
  (Ok tt, set_operations (λ _, [("rundata", OnRunData)]) w).
Proof.
  intros Ho Hp. destruct w. simpl in *. subst. reflexivity.
Qed.

Lemma rundata_with_callback payload (w : World App) :
  operations w = [("rundata", OnRunData)] → pending w = [] →
  handleMessage (mkIncoming "rundata" payload) w =
  (Ok tt, set_outbox (λ o, o ++ [MsgRunData (runData w)])
            (set_operations (λ _, []) w)).
Proof.
  intros Ho Hp. destruct w. simpl in *. subst. reflexivity.
Qed.

Lemma rundata_without_callback payload (w : World App) :
  operations w = [] → pending w = [] →
  handleMessage (mkIncoming "rundata" payload) w =
  (Ok tt, set_pending (λ _, [mkIncoming "rundata" payload]) w).
Proof.
  intros Ho Hp. destruct w. simpl in *. subst. reflexivity.
Qed.

End Snapshot.


(** ** What the computations of the script leave alone *)

Global Instance same_session_preorder {App} : PreOrder (@same_session App).
Proof.
  split.
  - by intros w.
  - intros w1 w2 w3 (?&?&?) (?&?&?). repeat split; congruence.
Qed.

Global Instance same_traffic_preorder {App} : PreOrder (@same_traffic App).
Proof.
  split.
  - by intros w.
  - intros w1 w2 w3 (?&?&?&?&?&?) (?&?&?&?&?&?). repeat split; congruence.
Qed.

Section Frames.
Context {App : Type} (R : relation (World App)) `{!PreOrder R}.

Lemma keeps_ret {A} (a : A) : keeps R (ret a).
Proof. intros w. reflexivity. Qed.

Lemma keeps_throw {A} e : keeps R (throw (A:=A) e).
Proof. intros w. reflexivity. Qed.

Lemma keeps_lift {A} (r : Result A) : keeps R (lift r).
Proof. destruct r; [apply keeps_ret | apply keeps_throw]. Qed.

Lemma keeps_get : keeps R get.
Proof. intros w. reflexivity. Qed.

Lemma keeps_bind {A B} (m : M App A) (k : A → M App B) :
  keeps R m → (∀ a, keeps R (k a)) → keeps R (bind m k).
Proof.
  intros Hm Hk w. unfold bind. specialize (Hm w).
  destruct (m w) as [[a|e] w']; simpl in *; [|done].
  etrans; [exact Hm | apply Hk].
Qed.

Lemma keeps_try_catch {A} (m : M App A) (h : Error → M App A) :
  keeps R m → (∀ e, keeps R (h e)) → keeps R (try_catch m h).
Proof.
  intros Hm Hh w. unfold try_catch. specialize (Hm w).
  destruct (m w) as [[a|e] w']; simpl in *; [done|].
  etrans; [exact Hm | apply Hh].
Qed.

Lemma keeps_forEach {A} (f : A → M App unit) l :
  (∀ x, keeps R (f x)) → keeps R (forEach f l).
Proof.
  intros Hf. induction l as [|x l IH]; simpl.
  - apply keeps_ret.
  - apply keeps_bind; [apply Hf | by intros _].
Qed.

Lemma keeps_modify (f : World App → World App) :
  (∀ w, R w (f w)) → keeps R (modify f).
Proof. intros Hf w. apply Hf. Qed.

Lemma keeps_log msg : (∀ w, R w (set_console (λ c, c ++ [msg]) w)) → keeps R (log msg).
Proof. intros H. unfold log. case_bool_decide; [by apply keeps_modify | apply keeps_ret]. Qed.

Lemma keeps_log2 msg : keeps R (log2 msg).
Proof. intros w. rewrite log2_silent. reflexivity. Qed.

End Frames.

Create HintDb frames.
#[export] Hint Resolve same_session_preorder same_traffic_preorder : frames.
#[export] Hint Resolve keeps_ret keeps_throw keeps_lift keeps_get keeps_log2 : frames.
#[export] Hint Extern 1 (keeps _ (log _)) => apply keeps_log; [apply _|done] : frames.
#[export] Hint Extern 1 (keeps _ (console_log _)) => apply keeps_modify; done : frames.
#[export] Hint Extern 1 (keeps _ (modify _)) => apply keeps_modify; done : frames.
#[export] Hint Extern 1 (keeps _ (send _)) => apply keeps_modify; done : frames.
#[export] Hint Extern 1 (keeps _ (install _)) => apply keeps_modify; done : frames.
#[export] Hint Extern 1 (keeps _ (push_dexFile _)) => apply keeps_modify; done : frames.

(** Splits a computation along its binds, handlers and loops, and closes
    what the hints of [frames] know. *)
Ltac keep :=
  repeat first
    [ progress cbv beta
    | solve [auto with frames]
    | apply keeps_bind; [apply _| |intros ?]
    | apply keeps_try_catch; [apply _| |intros ?]
    | apply keeps_forEach; [apply _|intros ?]
    | match goal with
      | |- keeps _ (match ?o with _ => _ end) => destruct o
      | |- keeps _ (if ?b then _ else _) => destruct b
      end ].

Section Handlers.
Context {App : Type}.
Variable original : Call → App → Result JValue * App.
Variable available : string → bool.
Variable has_overload : string → string → list string → bool.
Variable enumerateClassLoadersSync : App → list nat.
Variable overloads_through : App → nat → string → string → option (list (list string)).
Variable inspect : list JValue → string.
Variable readBytes : App → string → option (list Byte.byte).
Variable hashBytes : list Byte.byte → string.

Lemma keeps_call_original c : keeps same_session (call_original original c).
Proof.
  intros w. unfold call_original. by destruct (original c (process w)).
Qed.
#[local] Hint Resolve keeps_call_original : frames.

Lemma keeps_invoke_implementation trace this obj1 obj2 :
  keeps same_session (invoke_implementation original trace this obj1 obj2).
Proof. unfold invoke_implementation. keep. Qed.

Lemma keeps_hookDynamicMethod className methodName :
  keeps same_session
    (hookDynamicMethod enumerateClassLoadersSync overloads_through className methodName).
Proof.
  unfold hookDynamicMethod. keep.
Qed.
#[local] Hint Resolve keeps_hookDynamicMethod : frames.

Lemma keeps_loadClass_implementation classLoaderName this className :
  keeps same_session
    (loadClass_implementation original enumerateClassLoadersSync overloads_through
       classLoaderName this className).
Proof.
  unfold loadClass_implementation. keep.
Qed.

Lemma keeps_dynamic_implementation loader cls meth o this args :
  keeps same_session
    (dynamic_implementation original inspect loader cls meth o this args).
Proof. unfold dynamic_implementation. keep. Qed.

Lemma keeps_send_buffer buffer : keeps same_session (send_buffer (App:=App) hashBytes buffer).
Proof. unfold send_buffer. keep. Qed.
#[local] Hint Resolve keeps_send_buffer : frames.

Lemma keeps_memoryClassLoaderHook b d this args :
  keeps same_session (memoryClassLoaderHook original hashBytes b d this args).
Proof.
  unfold memoryClassLoaderHook, bufferArray_of. keep.
Qed.

Lemma keeps_fileClassLoaderHook d this args :
  keeps same_session (fileClassLoaderHook original readBytes hashBytes d this args).
Proof.
  unfold fileClassLoaderHook, sha256_fromFilePath, getJavaBufferFromPath.
  keep.
Qed.

(** Whatever the application calls, the implementations leave the
    callbacks, the pending messages and the hook configuration as they
    were. *)
Lemma keeps_implementation trace c :
  keeps same_session
    (implementation original enumerateClassLoadersSync overloads_through inspect
       readBytes hashBytes trace c).
Proof.
  destruct c; simpl.
  - apply keeps_invoke_implementation.
  - apply keeps_loadClass_implementation.
  - unfold init_implementation. destruct (hook d).
    + apply keeps_fileClassLoaderHook.
    + apply keeps_memoryClassLoaderHook.
  - apply keeps_dynamic_implementation.
Qed.

Lemma after_calls_session events (w : World App) :
  same_session w
    (after_calls original enumerateClassLoadersSync overloads_through inspect
       readBytes hashBytes events w).
Proof.
  revert w. induction events as [|[trace c] events IH]; intros w; simpl.
  - reflexivity.
  - etrans; [apply (keeps_implementation trace c w) | apply IH].
Qed.

(** *** Session start *)

Lemma keeps_on_hooks hooks : keeps same_traffic (on_hooks (App:=App) hooks).
Proof. unfold on_hooks, on_line. case_bool_decide; keep. Qed.

Lemma keeps_tryJavaUse className :
  keeps same_traffic (tryJavaUse (App:=App) available className).
Proof. unfold tryJavaUse, Java_use. keep. Qed.
#[local] Hint Resolve keeps_tryJavaUse : frames.

Lemma keeps_overload cls meth argTypes :
  keeps same_traffic (overload (App:=App) has_overload cls meth argTypes).
Proof. unfold overload. keep. Qed.
#[local] Hint Resolve keeps_overload : frames.

Lemma keeps_overrideloadClassForDynHooking :
  keeps same_traffic (overrideloadClassForDynHooking (App:=App) available has_overload).
Proof.
  unfold overrideloadClassForDynHooking, tryOverride. keep.
Qed.

Lemma keeps_overrideClassLoaderInit :
  keeps same_traffic (overrideClassLoaderInit (App:=App) available has_overload).
Proof.
  unfold overrideClassLoaderInit, override_all, tryOverride, override_init. keep.
Qed.

Lemma keeps_captureInvokeCalls :
  keeps same_traffic (captureInvokeCalls (App:=App) available has_overload).
Proof. unfold captureInvokeCalls, Java_use. keep. Qed.

(** When [Java.perform] has run its function to the end, one callback
    waits for a [rundata] message, no message is pending, [setup] is the
    one message sent, and nothing has been gathered yet. *)
Lemma main_started hooks (a : App) (w : World App) :
  main available has_overload hooks (initial a) = (Ok tt, w) →
  operations w = [("rundata", OnRunData)]
  ∧ pending w = []
  ∧ outbox w = [MsgSetup]
  ∧ runData w = mkRunData [] [].
Proof.
  unfold main.
  set (rest := overrideloadClassForDynHooking (App:=App) available has_overload >>
               overrideClassLoaderInit available has_overload >>
               captureInvokeCalls available has_overload).
  assert (keeps same_traffic rest) as Hrest.
  { apply keeps_bind; [apply _|apply keeps_overrideloadClassForDynHooking|intros _].
    apply keeps_bind; [apply _|apply keeps_overrideClassLoaderInit|intros _].
    apply keeps_captureInvokeCalls. }
  assert (∀ w1 : World App,
            operations w1 = [] → pending w1 = [] → outbox w1 = [MsgSetup] →
            runData w1 = mkRunData [] [] →
            (setupExitHandler >> rest) w1 = (Ok tt, w) →
            operations w = [("rundata", OnRunData)] ∧ pending w = []
            ∧ outbox w = [MsgSetup] ∧ runData w = mkRunData [] []) as Hgo.
  { intros w1 Ho Hp Hout Hrd.
    unfold bind at 1. rewrite setupExitHandler_registers by done.
    destruct (Hrest (set_operations (λ _, [("rundata", OnRunData)]) w1))
      as (Ho' & Hp' & Hout' & Hrd' & _).
    destruct (rest _) as [r w3]. simpl in *. intros [= -> ->].
    by rewrite Ho', Hp', Hout', Hrd', Hp, Hout, Hrd. }
  unfold bind at 1. rewrite fetchHookConfig_initial. unfold try_catch.
  pose proof (keeps_on_hooks hooks (set_outbox (λ _, [MsgSetup]) (initial a)))
    as (Ho & Hp & Hout & Hrd & _).
  destruct (on_hooks hooks _) as [[[]|e] w1]; simpl in Ho, Hp, Hout, Hrd.
  - by apply Hgo.
  - by apply Hgo.
Qed.

End Handlers.

(** ** The snapshot, after session start *)

Section Session.
Context {App : Type}.
Variable original : Call → App → Result JValue * App.
Variable available : string → bool.
Variable has_overload : string → string → list string → bool.
Variable enumerateClassLoadersSync : App → list nat.
Variable overloads_through : App → nat → string → string → option (list (list string)).
Variable inspect : list JValue → string.
Variable readBytes : App → string → option (list Byte.byte).
Variable hashBytes : list Byte.byte → string.

(** C2, as the code has it. [setupExitHandler] asks for one [rundata]
    message. After the session has started, and whatever the application
    has called since, the first [rundata] message is answered at once with
    the file names and the cross-references gathered so far, and answering
    changes neither of them, nor the hook configuration. A later [rundata]
    message, whatever the application has called in between, finds no
    callback: it stays pending, nothing is sent, and the data is left as
    it was. *)
Theorem rundata_answered_once (hooks first_payload later_payload : string)
    (a : App) (started : World App)
    (before between : list (list StackTraceElement * Call)) :
  main available has_overload hooks (initial a) = (Ok tt, started) →
  let activity :=
    after_calls original enumerateClassLoadersSync overloads_through inspect
      readBytes hashBytes in
  let w := activity before started in
  let first := handleMessage (mkIncoming "rundata" first_payload) w in
  let w' := activity between first.2 in
  let later := handleMessage (mkIncoming "rundata" later_payload) w' in
  first.1 = Ok tt
  ∧ outbox first.2 = outbox w ++ [MsgRunData (runData w)]
  ∧ runData first.2 = runData w
  ∧ hookedMethods first.2 = hookedMethods w
  ∧ later.1 = Ok tt
  ∧ outbox later.2 = outbox w'
  ∧ pending later.2 = [mkIncoming "rundata" later_payload]
  ∧ runData later.2 = runData w'
  ∧ hookedMethods later.2 = hookedMethods w'.
Proof.
  intros (Ho & Hp & _)%main_started activity w first w' later. subst activity.
  destruct (after_calls_session original enumerateClassLoadersSync
              overloads_through inspect readBytes hashBytes before started)
    as (Ho1 & Hp1 & _).
  fold w in Ho1, Hp1. rewrite Ho in Ho1. rewrite Hp in Hp1.
  assert (first = (Ok tt, set_outbox (λ o, o ++ [MsgRunData (runData w)])
                            (set_operations (λ _, []) w))) as Hfirst
    by (by apply rundata_with_callback).
  destruct (after_calls_session original enumerateClassLoadersSync
              overloads_through inspect readBytes hashBytes between first.2)
    as (Ho2 & Hp2 & _).
  fold w' in Ho2, Hp2. rewrite Hfirst in Ho2, Hp2. simpl in Ho2, Hp2.
  rewrite Hp1 in Hp2.
  assert (later = (Ok tt, set_pending (λ _, [mkIncoming "rundata" later_payload]) w'))
    as Hlater by (by apply rundata_without_callback).
  rewrite Hfirst, Hlater. done.
Qed.

End Session.

Lemma rundata_answered_once_witness :
  let started := (main (App:=nat) sample_available sample_overloads "" (initial O)).2 in
  let activity :=
    after_calls sample_original sample_loaders sample_dynamic sample_inspect
      sample_empty_files sample_digest in
  let w := activity
             [(sample_trace "run" 42 (Some "Main.java"),
               CallInvoke sample_method JNull (JArray []))] started in
  let first := handleMessage (mkIncoming "rundata" "") w in
  let w' := activity
              [(sample_trace "run" 42 (Some "Main.java"),
                CallInvoke sample_method JNull (JArray []))] first.2 in
  let later := handleMessage (mkIncoming "rundata" "") w' in
  first.1 = Ok tt
  ∧ outbox first.2 = outbox w ++ [MsgRunData (runData w)]
  ∧ runData first.2 = runData w
  ∧ hookedMethods first.2 = hookedMethods w
  ∧ later.1 = Ok tt
  ∧ outbox later.2 = outbox w'
  ∧ pending later.2 = [mkIncoming "rundata" ""]
  ∧ runData later.2 = runData w'
  ∧ hookedMethods later.2 = hookedMethods w'.
Proof.
  apply (rundata_answered_once sample_original sample_available sample_overloads
           sample_loaders sample_dynamic sample_inspect sample_empty_files
           sample_digest "" "" "" O
           (main (App:=nat) sample_available sample_overloads "" (initial O)).2).
  by vm_compute.
Defined.

(** C2 fails on the second request: after the session has started, a first
    [rundata] message is answered, and the next one is not. *)
Lemma rundata_answered_once_counterexample :
  let started := (main (App:=nat) sample_available sample_overloads "" (initial O)).2 in
  let rundata := mkIncoming "rundata" "" in
  answered rundata started
  ∧ ¬ answered rundata (handleMessage rundata started).2.
Proof.
  split; [by vm_compute|]. unfold answered. vm_compute. intros H. discriminate H.
Qed.

(** ** Transparency of the implementations *)

Global Instance same_application_preorder {App} : PreOrder (@same_application App).
Proof.
  split.
  - by intros w.
  - intros w1 w2 w3 (?&?) (?&?). split; congruence.
Qed.
#[export] Hint Resolve same_application_preorder : frames.

Section Returns.
Context {App : Type}.

Lemma returns_ret {A} (a : A) : returns (ret (App:=App) a).
Proof. intros w. by exists a. Qed.

Lemma returns_modify (f : World App → World App) : returns (modify f).
Proof. intros w. by exists tt. Qed.

Lemma returns_bind {A B} (m : M App A) (k : A → M App B) :
  returns m → (∀ a, returns (k a)) → returns (bind m k).
Proof.
  intros Hm Hk w. unfold bind. destruct (Hm w) as [a Ha].
  destruct (m w) as [[a'|e] w']; simpl in *; [|done]. apply Hk.
Qed.

Lemma returns_forEach {A} (f : A → M App unit) l :
  (∀ x, returns (f x)) → returns (forEach f l).
Proof.
  intros Hf. induction l as [|x l IH]; simpl.
  - apply returns_ret.
  - apply returns_bind; [apply Hf | by intros _].
Qed.

Lemma returns_try_catch {A} (m : M App A) (h : Error → M App A) :
  (∀ e, returns (h e)) → returns (try_catch m h).
Proof.
  intros Hh w. unfold try_catch.
  destruct (m w) as [[a|e] w']; simpl; [by exists a | apply Hh].
Qed.

End Returns.

Section Transparency.
Context {App : Type}.
Variable original : Call → App → Result JValue * App.
Variable enumerateClassLoadersSync : App → list nat.
Variable overloads_through : App → nat → string → string → option (list (list string)).
Variable inspect : list JValue → string.
Variable readBytes : App → string → option (list Byte.byte).
Variable hashBytes : list Byte.byte → string.

(** A call-through after an observation that left the application alone
    and made no call of its own. *)
Lemma call_through c (w w0 : World App) :
  same_application w w0 →
  transparent original (λ _, call_original original c w0) c w.
Proof.
  intros [Hc Hp]. unfold transparent, call_original. rewrite Hc, Hp.
  by destruct (original c (process w)).
Qed.

Lemma tracker_transparent trace this obj1 obj2 l (w : World App) :
  location_of trace = Ok l →
  transparent original (invoke_implementation original trace this obj1 obj2)
    (CallInvoke this obj1 obj2) w.
Proof.
  intros Hl. unfold transparent.
  rewrite (tracker_calls_through original _ _ _ _ l) by done.
  by apply (call_through (CallInvoke this obj1 obj2) w).
Qed.

Lemma dynamic_transparent loader cls meth o this args (w : World App) :
  transparent original
    (dynamic_implementation original inspect loader cls meth o this args)
    (CallDynamic loader cls meth o this args) w.
Proof.
  unfold transparent, dynamic_implementation, bind, console_log, modify. simpl.
  set (w0 := set_console _ (set_console _ w)).
  assert (same_application w w0) as H by done.
  pose proof (call_through (CallDynamic loader cls meth o this args) w w0 H) as Ht.
  unfold transparent in Ht.
  by destruct (call_original _ _ w0) as [[v|e] w'].
Qed.

Lemma file_transparent d this dexPath rest content (w : World App) :
  readBytes (process w) dexPath = Some content →
  transparent original
    (fileClassLoaderHook original readBytes hashBytes d this (JString dexPath :: rest))
    (CallInit d this (JString dexPath :: rest)) w.
Proof.
  intros Hr. unfold transparent.
  rewrite (file_hook_captures _ _ _ _ _ _ _ content) by done.
  by apply (call_through (CallInit d this (JString dexPath :: rest)) w).
Qed.

Lemma memory_transparent d this content rest (w : World App) :
  transparent original
    (memoryClassLoaderHook original hashBytes false d this (JByteBuffer content :: rest))
    (CallInit d this (JByteBuffer content :: rest)) w.
Proof.
  unfold transparent. rewrite memory_hook_captures.
  by apply (call_through (CallInit d this (JByteBuffer content :: rest)) w).
Qed.

(** Installing the hooks of a configured method never throws, and leaves
    the application alone. *)
Lemma hookDynamicMethod_returns className methodName :
  returns (hookDynamicMethod enumerateClassLoadersSync overloads_through
             (App:=App) className methodName).
Proof.
  unfold hookDynamicMethod. intros w. unfold bind, get. simpl.
  apply returns_forEach. intros loader. apply returns_try_catch.
  intros _. apply returns_ret.
Qed.

Lemma hookDynamicMethod_application className methodName :
  keeps same_application
    (hookDynamicMethod enumerateClassLoadersSync overloads_through
       (App:=App) className methodName).
Proof. unfold hookDynamicMethod. keep. Qed.

(** [loadClass] answers as the original does whenever the name of the
    class is a key of [hookedMethods] or is not a property every object
    inherits. *)
Lemma loadClass_transparent classLoaderName this className (w : World App) :
  JS.inherited className = false ∨ is_Some (hookedMethods w !! className) →
  transparent original
    (loadClass_implementation original enumerateClassLoadersSync overloads_through
       classLoaderName this className)
    (CallLoadClass classLoaderName this className) w.
Proof.
  intros Hname. unfold transparent, loadClass_implementation, bind.
  set (c := CallLoadClass classLoaderName this className).
  destruct (call_original_keeps original c w) as (_ & _ & _ & Hcalls & Horig).
  pose proof (keeps_call_original original c w) as (_ & _ & Hhooked).
  destruct (call_original original c w) as [[v|e] w1]; simpl in *;
    destruct (original c (process w)) as [r a]; simplify_eq/=; [|done].
  rewrite Hhooked.
  set (hooking := forEach _).
  assert (∀ methods, returns (hooking methods)
                     ∧ keeps same_application (hooking methods)) as Hhooking.
  { intros methods. split.
    - apply returns_forEach. intros m. apply hookDynamicMethod_returns.
    - apply keeps_forEach; [apply _|]. intros m.
      apply hookDynamicMethod_application. }
  unfold JS.has_property.
  destruct (hookedMethods w !! className) as [methods|] eqn:Hm.
  - rewrite bool_decide_true by eauto. simpl.
    destruct (Hhooking methods) as [Hret Hkeep].
    destruct (Hret w1) as [[] Hok]. destruct (Hkeep w1) as [Hc Hp].
    destruct (hooking methods w1) as [[[]|e] w2]; simpl in *; [|done].
    by rewrite Hc, Hp.
  - destruct Hname as [Hinh|[? ?]]; [|done].
    rewrite bool_decide_false by (by intros [? ?]). by rewrite Hinh.
Qed.

(** An observation that returns and leaves the application alone, followed
    by the call-through. *)
Lemma observe_then_call (m : M App unit) c (w : World App) :
  returns m → keeps same_application m →
  transparent original (m >> call_original original c) c w.
Proof.
  intros Hret Hkeep. unfold transparent, bind.
  destruct (Hret w) as [[] Hok]. pose proof (Hkeep w) as Hw.
  destruct (m w) as [[[]|e] w0]; simpl in *; [|done].
  by apply (call_through c w w0).
Qed.

Lemma bind_assoc {A B C} (m : M App A) (k : A → M App B) (h : B → M App C) w :
  bind (bind m k) h w = bind m (λ a, bind (k a) h) w.
Proof. unfold bind. by destruct (m w) as [[a|e] w']. Qed.

Lemma send_buffers_return contents :
  returns (forEach (send_buffer (App:=App) hashBytes) (JByteBuffer <$> contents)).
Proof.
  induction contents as [|content contents IH]; simpl.
  - apply returns_ret.
  - apply returns_bind; [|by intros _]. intros w. by exists tt.
Qed.

Lemma send_buffer_application buffer :
  keeps same_application (send_buffer (App:=App) hashBytes buffer).
Proof. unfold send_buffer. keep. Qed.

Lemma memory_array_transparent d this contents rest (w : World App) :
  transparent original
    (memoryClassLoaderHook original hashBytes true d this
       (JArray (JByteBuffer <$> contents) :: rest))
    (CallInit d this (JArray (JByteBuffer <$> contents) :: rest)) w.
Proof.
  set (c := CallInit d this (JArray (JByteBuffer <$> contents) :: rest)).
  set (m := log (App:=App) "Loading new dex from memory buffer" >>
            forEach (send_buffer hashBytes) (JByteBuffer <$> contents)).
  assert (transparent original (m >> call_original original c) c w) as H.
  { apply observe_then_call.
    - apply returns_bind; [intros w'; by exists tt|]. intros _.
      apply send_buffers_return.
    - unfold m. keep. apply send_buffer_application. }
  unfold transparent in *. unfold m in H. rewrite bind_assoc in H. exact H.
Qed.

(** A buffer without an accessible backing array stops the loop: the
    buffers before it have been sent, [array()] throws on it. *)
Lemma send_buffers_stop contents readOnly content others (w : World App) :
  ∃ what,
    (forEach (send_buffer hashBytes)
       ((JByteBuffer <$> contents) ++ JByteBufferNoArray readOnly content :: others) w).1
    = Throw (JavaException what).
Proof.
  revert w. induction contents as [|first contents IH]; intros w.
  - eexists. reflexivity.
  - rewrite fmap_cons. cbn [app forEach]. unfold bind at 1.
    assert (∃ w1, send_buffer hashBytes (JByteBuffer first) w = (Ok tt, w1))
      as [w1 ->] by (eexists; reflexivity).
    apply IH.
Qed.

Lemma memory_hook_stops b d this buffers args (w : World App) :
  bufferArray_of (App:=App) b args = ret buffers →
  (∀ w' : World App,
     ∃ what, (forEach (send_buffer hashBytes) buffers w').1 = Throw (JavaException what)) →
  let r := memoryClassLoaderHook original hashBytes b d this args w in
  (∃ what, r.1 = Throw (JavaException what))
  ∧ calls r.2 = calls w ∧ process r.2 = process w.
Proof.
  intros Hb Hthrow r. unfold r, memoryClassLoaderHook, bind.
  rewrite log_prints, Hb. unfold ret.
  set (w0 := set_console _ w).
  destruct (Hthrow w0) as [what Hwhat].
  destruct (keeps_forEach same_application (send_buffer hashBytes) buffers
              send_buffer_application w0) as [Hc Hp].
  destruct (forEach (send_buffer hashBytes) buffers w0) as [[[]|e'] w1];
    simpl in *; [done|].
  injection Hwhat as ->. split; [eexists; reflexivity|]. unfold w0 in Hc, Hp. simpl in Hc, Hp. by rewrite Hc, Hp.
Qed.

(** C3, as the code has it. Every implementation calls the original method
    once, with the receiver and the arguments it was given, and returns
    its result or throws its exception, whenever what it does before or
    after that call does not throw: the tracker when it finds the location
    of the caller, [loadClass] when the name of the class is a key of
    [hookedMethods] or no inherited property, a constructor hook when it
    is given a file that can be read or byte buffers that all have an
    accessible backing array, a dynamic hook always. No implementation
    catches anything: when a file cannot be read, the constructor hook
    throws the [IOError]; when a buffer has no accessible backing array,
    alone or in an array, the constructor hook throws what [array()]
    throws; and in both cases the original constructor is not called. *)
Theorem hooks_transparent :
  (∀ trace this obj1 obj2 l (w : World App),
     location_of trace = Ok l →
     transparent original (invoke_implementation original trace this obj1 obj2)
       (CallInvoke this obj1 obj2) w)
  ∧ (∀ classLoaderName this className (w : World App),
       JS.inherited className = false ∨ is_Some (hookedMethods w !! className) →
       transparent original
         (loadClass_implementation original enumerateClassLoadersSync
            overloads_through classLoaderName this className)
         (CallLoadClass classLoaderName this className) w)
  ∧ (∀ d this dexPath rest content (w : World App),
       readBytes (process w) dexPath = Some content →
       transparent original
         (fileClassLoaderHook original readBytes hashBytes d this (JString dexPath :: rest))
         (CallInit d this (JString dexPath :: rest)) w)
  ∧ (∀ d this dexPath rest (w : World App),
       readBytes (process w) dexPath = None →
       let r := fileClassLoaderHook original readBytes hashBytes d this
                  (JString dexPath :: rest) w in
       r.1 = Throw (IOError dexPath) ∧ calls r.2 = calls w ∧ process r.2 = process w)
  ∧ (∀ d this content rest (w : World App),
       transparent original
         (memoryClassLoaderHook original hashBytes false d this
            (JByteBuffer content :: rest))
         (CallInit d this (JByteBuffer content :: rest)) w)
  ∧ (∀ d this contents rest (w : World App),
       transparent original
         (memoryClassLoaderHook original hashBytes true d this
            (JArray (JByteBuffer <$> contents) :: rest))
         (CallInit d this (JArray (JByteBuffer <$> contents) :: rest)) w)
  ∧ (∀ d this readOnly content rest (w : World App),
       let r := memoryClassLoaderHook original hashBytes false d this
                  (JByteBufferNoArray readOnly content :: rest) w in
       (∃ what, r.1 = Throw (JavaException what))
       ∧ calls r.2 = calls w ∧ process r.2 = process w)
  ∧ (∀ d this contents readOnly content others rest (w : World App),
       let r := memoryClassLoaderHook original hashBytes true d this
                  (JArray ((JByteBuffer <$> contents)
                           ++ JByteBufferNoArray readOnly content :: others) :: rest) w in
       (∃ what, r.1 = Throw (JavaException what))
       ∧ calls r.2 = calls w ∧ process r.2 = process w)
  ∧ (∀ loader cls meth o this args (w : World App),
       transparent original
         (dynamic_implementation original inspect loader cls meth o this args)
         (CallDynamic loader cls meth o this args) w).
Proof.
  split; [intros; by eapply tracker_transparent|].
  split; [intros; by apply loadClass_transparent|].
  split; [intros; by eapply file_transparent|].
  split; [intros ????? Hr r; unfold r; by rewrite file_hook_fails|].
  split; [intros; apply memory_transparent|].
  split; [intros; apply memory_array_transparent|].
  split.
  { intros d this readOnly content rest w.
    apply (memory_hook_stops false d this [JByteBufferNoArray readOnly content]);
      [reflexivity|]. intros w'. eexists. reflexivity. }
  split.
  { intros d this contents readOnly content others rest w.
    apply (memory_hook_stops true d this
             ((JByteBuffer <$> contents) ++ JByteBufferNoArray readOnly content :: others));
      [reflexivity|]. intros w'. apply send_buffers_stop. }
  intros; apply dynamic_transparent.
Qed.

End Transparency.

(** C3 fails where a constructor hook is given a buffer without an
    accessible backing array, a read-only [ByteBuffer] for one: un-hooked,
    the constructor of [InMemoryDexClassLoader] returns; hooked,
    [buffer.array()] throws before anything is sent, the caller gets that
    exception, and the original constructor has not run. *)
Lemma hooks_transparent_counterexample :
  let d := mkDescriptor (Some "dalvik.system.InMemoryDexClassLoader")
             ["java.nio.ByteBuffer"; "java.lang.ClassLoader"] (FromMemory false)
             "InMemoryDexClassLoader(ByteBuffer dexBuffer, ClassLoader parent)" in
  let args := [JByteBufferNoArray true []; JNull] in
  let c := CallInit d (JRef 1) args in
  let hooked := init_implementation sample_original sample_empty_files sample_digest
                  d (JRef 1) args in
  (unhooked sample_original c (initial O)).1 = Ok (JString "result")
  ∧ (hooked (initial O)).1 = Throw (JavaException "java.nio.ReadOnlyBufferException")
  ∧ calls (hooked (initial O)).2 = []
  ∧ outbox (hooked (initial O)).2 = []
  ∧ ¬ transparent sample_original hooked c (initial O).
Proof.
  repeat split; try by vm_compute.
  intros (H & _). by vm_compute in H.
Qed.

(** The same where a constructor hook cannot read its file: un-hooked,
    the constructor returns; hooked, the caller gets an [IOError] and the
    original constructor has not run. *)
Example file_hook_not_transparent :
  let args := [JString "/data/local/tmp/payload.dex"; JNull] in
  let c := CallInit sample_descriptor (JRef 1) args in
  (unhooked sample_original c (initial O)).1 = Ok (JString "result")
  ∧ ¬ transparent sample_original
        (fileClassLoaderHook sample_original sample_unreadable sample_digest
           sample_descriptor (JRef 1) args)
        c (initial O).
Proof.
  split; [done|]. intros (H & _). by vm_compute in H.
Qed.

(** A class named like a property of [Object.prototype] takes the other
    path: it is loaded, and then [forEach] is called on what
    [hookedMethods] inherits under that name. *)
Example loadClass_inherited_name :
  let r := loadClass_implementation sample_original sample_loaders sample_dynamic
             "PathClassLoader" (JRef 1) "constructor" (initial O) in
  r.1 = Throw (TypeError "forEach is not a function")
  ∧ calls r.2 = [CallLoadClass "PathClassLoader" (JRef 1) "constructor"].
Proof. by vm_compute. Qed.

(** ** More on strings: how [split] cuts *)

Lemma split_parts_clean sep s :
  Forall (λ p, all_chars (λ c, negb (bool_decide (c = sep))) p = true) (JS.split sep s).
Proof.
  induction s as [|c s IH]; simpl.
  - by repeat constructor.
  - case_decide as Hc.
    + by constructor.
    + destruct (JS.split sep s) as [|h t].
      { constructor; [|done]. simpl. by rewrite bool_decide_false. }
      inversion_clear IH as [|?? Hh Ht]. constructor; [|done].
      simpl. by rewrite bool_decide_false, Hh.
Qed.

Lemma slice_snoc {A} (l : list A) :
  l ≠ [] → ∃ x, JS.slice_last l = Some x ∧ l = JS.slice_init l ++ [x].
Proof.
  induction l as [|y l IH]; [done|]. intros _.
  destruct l as [|z l]; [by exists y|].
  destruct IH as (x & Hx & Hl); [done|]. exists x. split; [done|].
  simpl in *. by rewrite <- Hl.
Qed.

Lemma join_snoc sep (init : list string) last :
  JS.join sep (init ++ [last]) =
  match init with
  | [] => last
  | _ => JS.join sep init +:+ sep +:+ last
  end.
Proof.
  induction init as [|x init IH]; [done|].
  destruct init as [|y init]; [done|].
  change (JS.join sep ((x :: y :: init) ++ [last]))
    with (x +:+ sep +:+ JS.join sep ((y :: init) ++ [last])).
  rewrite IH.
  change (JS.join sep (x :: y :: init)) with (x +:+ sep +:+ JS.join sep (y :: init)).
  by rewrite !app_assoc'.
Qed.

Lemma includes_char c s :
  JS.includes (String c "") s
  = negb (all_chars (λ x, negb (bool_decide (x = c))) s).
Proof.
  induction s as [|x s IH]; [done|].
  simpl. rewrite IH. destruct (bool_decide (c = x)) eqn:E.
  - apply bool_decide_eq_true in E as ->. rewrite bool_decide_true by done.
    by destruct s.
  - apply bool_decide_eq_false in E. rewrite (bool_decide_false (x = c)) by done.
    simpl. by destruct (negb _).
Qed.

(** What [split] gives is, but for its last part, the parts before the
    last separator; the last part is what follows it. *)
Lemma split_at_last sep s :
  ∃ last,
    JS.slice_last (JS.split sep s) = Some last
    ∧ all_chars (λ c, negb (bool_decide (c = sep))) last = true
    ∧ if JS.includes (String sep "") s
      then s = JS.join (String sep "") (JS.slice_init (JS.split sep s))
               +:+ String sep "" +:+ last
      else JS.slice_init (JS.split sep s) = [] ∧ s = last.
Proof.
  destruct (slice_snoc (JS.split sep s) (split_nonempty sep s)) as (last & Hlast & Hparts).
  exists last. split; [done|].
  pose proof (split_parts_clean sep s) as Hclean.
  pose proof (join_split sep s) as Hjoin.
  rewrite Hparts in Hclean, Hjoin.
  apply Forall_app in Hclean as [_ Hl]. inversion_clear Hl as [|?? Hl' _].
  split; [done|].
  rewrite join_snoc in Hjoin. rewrite includes_char.
  destruct (JS.slice_init (JS.split sep s)) as [|x init] eqn:Hinit.
  - subst s. by rewrite Hl'.
  - destruct (all_chars _ s) eqn:Hs; simpl; [|done].
    apply split_without in Hs. rewrite Hs in Hinit. done.
Qed.

(** ** Every line of the payload, every path *)

(** X1. Whatever the line, [fetchHookConfig] reads it as a class and a
    method: the method is what follows the final dot of the line and holds
    no dot, the class is what precedes that dot; a line without a dot is a
    method of the class whose name is empty. The method is added to the
    methods of that class, or the class is added with that one method. *)
Theorem line_splits_at_final_dot (line : string) (h : gmap string (list string)) :
  ∃ cls meth,
    no_dot meth = true
    ∧ (if JS.includes "." line then line = cls +:+ "." +:+ meth
       else cls = "" ∧ meth = line)
    ∧ add_hook line h =
      if JS.has_property cls h then
        match h !! cls with
        | Some methods => Ok (<[cls := methods ++ [meth]]> h)
        | None => Throw (TypeError "push is not a function")
        end
      else Ok (<[cls := [meth]]> h).
Proof.
  destruct (split_at_last "." line) as (meth & Hlast & Hm & Hparts).
  exists (JS.join "." (JS.slice_init (JS.split "." line))), meth.
  split; [done|]. split.
  - destruct (JS.includes "." line); [done|].
    destruct Hparts as [-> ->]. done.
  - unfold add_hook. by rewrite Hlast.
Qed.

(** X2. The file name under which a file is sent starts with what follows
    the last slash of its path: that part holds no slash, the path is a
    directory, a slash and that part, and a path without a slash is that
    part. A path that ends in a slash gives the empty part. *)
Theorem basename_is_last_component (dexPath : string) :
  no_slash (basename dexPath) = true
  ∧ (if JS.includes "/" dexPath
     then ∃ dir, dexPath = dir +:+ "/" +:+ basename dexPath
     else basename dexPath = dexPath)
  ∧ basename (dexPath +:+ "/") = "".
Proof.
  destruct (split_at_last "/" dexPath) as (name & Hlast & Hn & Hparts).
  unfold basename. rewrite Hlast. simpl. split; [done|]. split.
  - destruct (JS.includes "/" dexPath); [by eexists|]. by destruct Hparts.
  - change (dexPath +:+ "/") with (dexPath +:+ String "/" "").
    rewrite split_app. simpl.
    by rewrite (slice_last_snoc (JS.split "/" dexPath) "").
Qed.

(** ** More on strings: what [trim] removes *)

Lemma last_char_app s t : t ≠ "" → last_char (s +:+ t) = last_char t.
Proof.
  intros Ht. induction s as [|c s IH]; [done|].
  rewrite app_cons. simpl. rewrite IH.
  destruct (s +:+ t) eqn:E; [|done]. by destruct s, t.
Qed.

Lemma trim_end_last s c :
  last_char s = Some c → JS.is_white c = false → JS.trim_end s = s.
Proof.
  intros Hl Hc. induction s as [|a s IH]; [done|].
  destruct s as [|b s].
  - simpl in *. simplify_eq. by rewrite Hc.
  - change (JS.trim_end (String a (String b s)))
      with (match JS.trim_end (String b s) with
            | "" => if JS.is_white a then "" else String a ""
            | t => String a t
            end).
    by rewrite IH.
Qed.

Lemma trim_trimmed s : trimmed s = true → JS.trim s = s.
Proof.
  unfold trimmed, JS.trim. intros [Hs He]%andb_prop.
  destruct s as [|c s]; [done|]. apply negb_true_iff in Hs.
  rewrite trim_start_id by done.
  destruct (last_char (String c s)) as [e|] eqn:Hl; [|done].
  apply negb_true_iff in He. by apply (trim_end_last _ e).
Qed.

Lemma trim_start_white pre s :
  all_chars JS.is_white pre = true → JS.trim_start (pre +:+ s) = JS.trim_start s.
Proof.
  induction pre as [|c pre IH]; [done|]. intros [Hc Hp]%andb_prop.
  rewrite app_cons. simpl. rewrite Hc. by apply IH.
Qed.

Lemma trim_end_white_all suf :
  all_chars JS.is_white suf = true → JS.trim_end suf = "".
Proof.
  induction suf as [|c suf IH]; [done|]. simpl. intros [Hc Hp]%andb_prop.
  by rewrite IH, Hc.
Qed.

Lemma trim_end_white s suf :
  all_chars JS.is_white suf = true → JS.trim_end (s +:+ suf) = JS.trim_end s.
Proof.
  intros Hsuf. induction s as [|c s IH].
  - rewrite app_empty_l. by apply trim_end_white_all.
  - rewrite app_cons. simpl. by rewrite IH.
Qed.

(** White space around a payload is dropped by [trim]. *)
Lemma trim_around pre s suf :
  all_chars JS.is_white pre = true →
  all_chars JS.is_white suf = true →
  trimmed s = true →
  JS.trim (pre +:+ s +:+ suf) = s.
Proof.
  intros Hpre Hsuf Hs. pose proof (trim_trimmed s Hs) as Ht.
  unfold JS.trim in *. rewrite trim_start_white by done.
  unfold trimmed in Hs. apply andb_prop in Hs as [Hs He].
  destruct s as [|c s]; [done|]. apply negb_true_iff in Hs.
  rewrite app_cons. rewrite trim_start_id by done.
  rewrite <- app_cons. rewrite trim_end_white by done.
  by rewrite trim_start_id in Ht.
Qed.


Lemma trimmed_first s : trimmed s = true → ∃ c r, s = String c r ∧ JS.is_white c = false.
Proof.
  unfold trimmed. intros [Hs _]%andb_prop. destruct s as [|c r]; [done|].
  exists c, r. by apply negb_true_iff in Hs.
Qed.

Lemma trimmed_last s : trimmed s = true → ∃ e, last_char s = Some e ∧ JS.is_white e = false.
Proof.
  unfold trimmed. intros [_ He]%andb_prop. destruct (last_char s) as [e|]; [|done].
  exists e. by apply negb_true_iff in He.
Qed.

Lemma trimmed_join (lines : list string) :
  lines ≠ [] → Forall (λ l, trimmed l = true) lines →
  trimmed (JS.join newline lines) = true.
Proof.
  intros Hne Hall.
  destruct (slice_snoc lines Hne) as (last & _ & Hsnoc).
  assert (trimmed last = true) as Hlast.
  { rewrite Hsnoc in Hall. apply Forall_app in Hall as [_ H]. by inversion H. }
  destruct lines as [|l rest]; [done|].
  assert (trimmed l = true) as Hl by (by inversion Hall).
  destruct (trimmed_first l Hl) as (c & r & -> & Hc).
  destruct (trimmed_last last Hlast) as (e & He & Hwe).
  assert (∃ tail, JS.join newline (String c r :: rest) = String c tail) as [tail Ehead].
  { destruct rest; [by exists r|]. by eexists. }
  assert (last_char (JS.join newline (String c r :: rest)) = Some e) as Elast.
  { rewrite Hsnoc, join_snoc.
    destruct (JS.slice_init _); [done|].
    rewrite <- app_assoc'. rewrite last_char_app; [done|]. by destruct last. }
  unfold trimmed. rewrite Elast, Ehead. by rewrite Hc, Hwe.
Qed.

Lemma last_char_plain c s :
  all_chars (λ x, negb (JS.is_white x)) (String c s) = true →
  ∃ e, last_char (String c s) = Some e ∧ JS.is_white e = false.
Proof.
  revert c. induction s as [|d s IH]; intros c [Hc Hs]%andb_prop.
  - exists c. by apply negb_true_iff in Hc.
  - destruct (IH d Hs) as (e & He & Hw). by exists e.
Qed.

Lemma hook_line_trimmed cls m :
  all_chars class_char cls = true → all_chars name_char m = true →
  trimmed (hook_line cls m) = true.
Proof.
  intros Hc Hm. unfold hook_line, trimmed.
  assert (last_char (cls +:+ "." +:+ m) = last_char ("." +:+ m)) as ->
    by (by apply last_char_app).
  apply andb_true_intro. split.
  - destruct cls as [|c cls]; [done|]. rewrite app_cons.
    simpl in Hc. apply andb_prop in Hc as [Hc _].
    apply class_char_plain in Hc as [-> _]. done.
  - change ("." +:+ m) with (String "." m).
    destruct (last_char_plain "." m) as (e & -> & ->); [|done].
    simpl. revert Hm. apply all_chars_impl.
    intros c' [H _]%name_char_plain. by rewrite H.
Qed.

(** ** fetchHookConfig, on any well-formed payload *)

Section HooksGeneral.
Context {App : Type}.

Lemma forEach_app {A} (f : A → M App unit) l1 l2 (w : World App) :
  forEach f (l1 ++ l2) w = (forEach f l1 >> forEach f l2) w.
Proof.
  revert w. induction l1 as [|x l1 IH]; intros w; simpl.
  - unfold bind, ret. by destruct (forEach f l2 w) as [[[]|e] w'].
  - unfold bind in *. destruct (f x w) as [[[]|e] w']; [|done]. apply IH.
Qed.

Lemma on_line_adds cls meth (w : World App) :
  no_dot meth = true →
  JS.inherited cls = false →
  on_line (hook_line cls meth) w =
  (Ok tt, set_hookedMethods
            (λ h, <[cls := default [] (h !! cls) ++ [meth]]> h) w).
Proof.
  intros Hm Hinh. destruct (hookedMethods w !! cls) as [methods|] eqn:Hcls.
  - rewrite (on_line_present cls meth methods) by done.
    unfold set_hookedMethods. by rewrite Hcls.
  - rewrite on_line_absent by done. unfold set_hookedMethods. by rewrite Hcls.
Qed.

Lemma on_line_inherited cls meth (w : World App) :
  no_dot meth = true →
  JS.inherited cls = true →
  hookedMethods w !! cls = None →
  on_line (hook_line cls meth) w = (Throw (TypeError "push is not a function"), w).
Proof.
  intros Hm Hinh Hcls. unfold on_line, bind, get. simpl.
  rewrite add_hook_line by done. unfold JS.has_property.
  rewrite Hcls, Hinh. rewrite bool_decide_false by (by intros [? ?]). done.
Qed.

Lemma with_methods_cons before m more :
  with_methods (Some (default [] before ++ [m])) more = with_methods before (m :: more).
Proof.
  unfold with_methods. destruct more; simpl; [done|]. by rewrite <- app_assoc.
Qed.

Lemma forEach_entries (entries : list (string * string)) (w : World App) :
  Forall (λ e, no_dot e.2 = true ∧ JS.inherited e.1 = false) entries →
  ∃ h, forEach on_line ((λ e, hook_line e.1 e.2) <$> entries) w
       = (Ok tt, set_hookedMethods (λ _, h) w)
     ∧ ∀ cls, h !! cls = with_methods (hookedMethods w !! cls) (methods_for cls entries).
Proof.
  intros Hall. revert w. induction Hall as [|[c m] entries [Hm Hc] _ IH]; intros w.
  - exists (hookedMethods w). split; [by destruct w|done].
  - simpl in Hm, Hc. rewrite fmap_cons. cbn [forEach fst snd].
    unfold bind at 1. rewrite on_line_adds by done.
    destruct (IH (set_hookedMethods
                    (λ h, <[c := default [] (h !! c) ++ [m]]> h) w))
      as (h & -> & Hh).
    exists h. split; [by destruct w|]. intros cls. rewrite Hh. simpl.
    unfold methods_for. rewrite filter_cons. simpl.
    destruct (decide (c = cls)) as [->|Hne].
    + rewrite lookup_insert_eq. simpl. apply with_methods_cons.
    + by rewrite lookup_insert_ne.
Qed.

Lemma payload_lines (entries : list (string * string)) :
  entries ≠ [] →
  Forall (λ e, plain_entry e = true) entries →
  payload_of entries ≠ ""
  ∧ JS.split "010" (JS.trim (payload_of entries))
    = (λ e, hook_line e.1 e.2) <$> entries.
Proof.
  intros Hne Hplain. unfold payload_of.
  set (lines := (λ e, hook_line e.1 e.2) <$> entries).
  assert (lines ≠ []) as Hlines by (by destruct entries).
  assert (Forall (λ e, all_chars class_char e.1 = true
                       ∧ all_chars name_char e.2 = true) entries) as Hall.
  { eapply Forall_impl; [exact Hplain|]. intros e He. by apply andb_prop in He. }
  assert (trimmed (JS.join newline lines) = true) as Htrim.
  { apply trimmed_join; [done|]. unfold lines. rewrite Forall_fmap.
    eapply Forall_impl; [exact Hall|]. intros e [? ?]. by apply hook_line_trimmed. }
  split.
  - intros E. by rewrite E in Htrim.
  - rewrite trim_trimmed by done. apply split_lines; [done|].
    unfold lines. rewrite Forall_fmap.
    eapply Forall_impl; [exact Hall|]. intros e [? ?]. by apply hook_line_plain.
Qed.

End HooksGeneral.

Lemma methods_for_none cls (entries : list (string * string)) :
  Forall (λ e, e.1 ≠ cls) entries → methods_for cls entries = [].
Proof.
  unfold methods_for. induction 1 as [|e entries He _ IH]; [done|].
  by rewrite filter_cons, decide_False.
Qed.

(** X3. A payload of one line or more, whose lines are a class name made
    of identifier characters and dots, a dot and a method name made of
    identifier characters, no class being named like a property that every
    object inherits: after [fetchHookConfig], [hookedMethods] holds, for
    every class of the payload, the methods of its lines in the order of
    the lines, a method listed twice being held twice, and it holds no
    other key. *)
Theorem hooks_grouped_by_class {App} (a : App) (entries : list (string * string)) :
  entries ≠ [] →
  Forall (λ e, plain_entry e = true) entries →
  Forall (λ e, JS.inherited e.1 = false) entries →
  let r := fetchHookConfig (payload_of entries) (initial a) in
  r.1 = Ok tt
  ∧ ∀ cls, hookedMethods r.2 !! cls =
           match methods_for cls entries with
           | [] => None
           | methods => Some methods
           end.
Proof.
  intros Hne Hplain Hinh r. unfold r. rewrite fetchHookConfig_initial.
  destruct (payload_lines entries Hne Hplain) as [Hpayload Hsplit].
  unfold try_catch, on_hooks. rewrite bool_decide_false, Hsplit by done.
  destruct (forEach_entries entries (set_outbox (λ _, [MsgSetup]) (initial a)))
    as (h & -> & Hh).
  { apply Forall_forall. intros e He. rewrite Forall_forall in Hplain, Hinh.
    split; [|by apply Hinh].
    specialize (Hplain e He). apply andb_prop in Hplain as [_ Hm].
    by apply name_no_dot. }
  split; [done|]. intros cls. simpl. rewrite Hh. simpl.
  unfold with_methods. by destruct (methods_for cls entries).
Qed.

Lemma hooks_grouped_by_class_witness :
  let entries := [("a.B", "run"); ("c.D", "stop"); ("a.B", "run"); ("a.B", "go")] in
  let r := fetchHookConfig (payload_of entries) (initial tt) in
  r.1 = Ok tt
  ∧ ∀ cls, hookedMethods r.2 !! cls =
           match methods_for cls entries with
           | [] => None
           | methods => Some methods
           end.
Proof.
  apply (hooks_grouped_by_class tt
           [("a.B", "run"); ("c.D", "stop"); ("a.B", "run"); ("a.B", "go")]).
  - done.
  - by repeat constructor.
  - by repeat constructor.
Defined.

(** X4. A line whose class is named like a property that every object
    inherits, [constructor] or [toString] for one, stops the reading of
    the payload: [in] finds the inherited property, [push] is not a
    function of it, and the callback of [recv] throws a [TypeError]. The
    lines before it have been read, the lines after it are not. *)
Theorem hooks_stop_at_inherited_name {App} (w : World App)
    (before after : list (string * string)) (cls meth : string) :
  hookedMethods w = ∅ →
  Forall (λ e, plain_entry e = true) (before ++ (cls, meth) :: after) →
  Forall (λ e, JS.inherited e.1 = false) before →
  JS.inherited cls = true →
  let r := on_hooks (payload_of (before ++ (cls, meth) :: after)) w in
  (∃ what, r.1 = Throw (TypeError what))
  ∧ ∀ c, hookedMethods r.2 !! c =
         match methods_for c before with
         | [] => None
         | methods => Some methods
         end.
Proof.
  intros Hw Hplain Hinh Hcls r. unfold r.
  destruct (payload_lines (before ++ (cls, meth) :: after)) as [Hpayload Hsplit];
    [by destruct before|done|].
  apply Forall_app in Hplain as [Hbefore Hrest].
  destruct (forEach_entries before w) as (h & Hrun & Hh).
  { apply Forall_forall. intros e He. rewrite Forall_forall in Hbefore, Hinh.
    split; [|by apply Hinh].
    specialize (Hbefore e He). apply andb_prop in Hbefore as [_ Hm].
    by apply name_no_dot. }
  assert (h !! cls = None) as Hnone.
  { rewrite Hh, Hw, lookup_empty. simpl. rewrite methods_for_none; [done|].
    eapply Forall_impl; [exact Hinh|]. intros e He E. cbv beta in He. congruence. }
  assert (on_hooks (payload_of (before ++ (cls, meth) :: after)) w
          = (Throw (TypeError "push is not a function"),
             set_hookedMethods (λ _, h) w))
    as ->.
  { unfold on_hooks. rewrite bool_decide_false, Hsplit by done.
    rewrite fmap_app, forEach_app. unfold bind at 1. rewrite Hrun.
    rewrite fmap_cons. cbn [forEach fst snd]. unfold bind at 1.
    rewrite on_line_inherited; [done| |done|done].
    inversion_clear Hrest as [|?? He _]. apply andb_prop in He as [_ Hm].
    by apply name_no_dot. }
  split; [by eexists|]. intros c. simpl. rewrite Hh, Hw, lookup_empty. simpl.
  unfold with_methods. by destruct (methods_for c before).
Qed.

Lemma hooks_stop_at_inherited_name_witness :
  let entries := [("a.B", "run")] ++ ("toString", "x") :: [("c.D", "stop")] in
  let r := on_hooks (payload_of entries) (initial tt) in
  (∃ what, r.1 = Throw (TypeError what))
  ∧ ∀ c, hookedMethods r.2 !! c =
         match methods_for c [("a.B", "run")] with
         | [] => None
         | methods => Some methods
         end.
Proof.
  apply (hooks_stop_at_inherited_name (initial tt) [("a.B", "run")] [("c.D", "stop")]
           "toString" "x").
  - done.
  - by repeat constructor.
  - by repeat constructor.
  - done.
Defined.

(** X5. White space and line ends around the payload are not read: a
    payload that starts and ends with other characters is read the same
    with any white space before and after it. A payload of white space
    only is not the empty payload, though: it is read as one empty line,
    the method without a name of the class without a name. *)
Theorem hooks_ignore_surrounding_white_space {App} (a : App)
    (before payload after : string) :
  all_chars JS.is_white before = true →
  all_chars JS.is_white after = true →
  trimmed payload = true →
  fetchHookConfig (before +:+ payload +:+ after) (initial a)
  = fetchHookConfig payload (initial a)
  ∧ (before ≠ "" →
     hookedMethods (fetchHookConfig before (initial a)).2 = {[ "" := [""] ]}).
Proof.
  intros Hb Ha Hp. split.
  - rewrite !fetchHookConfig_initial. unfold on_hooks.
    rewrite trim_around, trim_trimmed by done.
    destruct (trimmed_first payload Hp) as (c & r & -> & _).
    rewrite !bool_decide_false; [done|done|].
    destruct before; [done|]. by rewrite app_cons.
  - intros Hne. rewrite fetchHookConfig_initial. unfold on_hooks.
    rewrite bool_decide_false by done.
    assert (JS.trim before = "") as ->.
    { unfold JS.trim. rewrite <- (app_empty_r before), trim_start_white by done.
      done. }
    done.
Qed.

Lemma hooks_ignore_surrounding_white_space_witness :
  fetchHookConfig ("  " +:+ "a.B.run" +:+ newline) (initial tt)
  = fetchHookConfig "a.B.run" (initial tt)
  ∧ ("  " ≠ "" →
     hookedMethods (fetchHookConfig "  " (initial tt)).2 = {[ "" := [""] ]}).
Proof.
  apply (hooks_ignore_surrounding_white_space tt "  " "a.B.run" newline); reflexivity.
Defined.

(** ** The cross-reference table: order and totals *)

Lemma record_xref_cons_same m l x t :
  has_key (m, l) x = true → record_xref m l (x :: t) = increment x :: t.
Proof. intros Hx. unfold record_xref. simpl. by rewrite same_xref_has_key, Hx. Qed.

Lemma record_xref_cons_other m l x t :
  has_key (m, l) x = false → record_xref m l (x :: t) = x :: record_xref m l t.
Proof.
  intros Hx. unfold record_xref. simpl. rewrite same_xref_has_key, Hx.
  by destruct (JS.findIndex (same_xref m l) t).
Qed.

Lemma record_xref_keys m l t :
  xref_key <$> record_xref m l t =
  if decide ((m, l) ∈ xref_key <$> t) then xref_key <$> t
  else (xref_key <$> t) ++ [(m, l)].
Proof.
  induction t as [|x t IH].
  - by rewrite decide_False by (by intros ?%elem_of_nil).
  - destruct (has_key (m, l) x) eqn:Hx.
    + rewrite record_xref_cons_same by done.
      apply bool_decide_eq_true in Hx.
      rewrite decide_True; [done|]. rewrite fmap_cons, Hx. apply list_elem_of_here.
    + rewrite record_xref_cons_other by done.
      apply bool_decide_eq_false in Hx.
      rewrite !fmap_cons, IH.
      destruct (decide ((m, l) ∈ xref_key <$> t)) as [Hin|Hin].
      * rewrite decide_True; [done|]. by apply list_elem_of_further.
      * rewrite decide_False; [done|].
        intros [?|?]%elem_of_cons; [congruence|done].
Qed.

Lemma record_xref_total m l t :
  total_count (record_xref m l t) = total_count t + 1.
Proof.
  induction t as [|x t IH]; [done|].
  destruct (has_key (m, l) x) eqn:Hx.
  - rewrite record_xref_cons_same by done. simpl. lia.
  - rewrite record_xref_cons_other by done. simpl. rewrite IH. lia.
Qed.

Lemma record_xref_positive m l t :
  Forall (λ x, 1 ≤ count x) t → Forall (λ x, 1 ≤ count x) (record_xref m l t).
Proof.
  induction 1 as [|x t Hx Ht IH].
  - by repeat constructor.
  - destruct (has_key (m, l) x) eqn:E.
    + rewrite record_xref_cons_same by done. constructor; [simpl; lia|done].
    + rewrite record_xref_cons_other by done. by constructor.
Qed.

Lemma count_le_total t x :
  Forall (λ x, 1 ≤ count x) t → x ∈ t → count x ≤ total_count t.
Proof.
  induction 1 as [|y t Hy Ht IH]; [by intros ?%elem_of_nil|].
  assert (0 ≤ total_count t) as Hsum.
  { clear IH. induction Ht as [|z t Hz _ IH]; simpl; lia. }
  intros [->|Hin]%elem_of_cons; simpl; [lia|]. specialize (IH Hin). lia.
Qed.

Section TableOrder.
Context {App : Type}.
Variable original : Call → App → Result JValue * App.

Lemma after_invocations_snoc invs inv (w : World App) :
  after_invocations original (invs ++ [inv]) w
  = (invoke original inv (after_invocations original invs w)).2.
Proof. unfold after_invocations. by rewrite fold_left_app. Qed.

(** X6. The table keeps its records in the order in which their keys were
    first recorded: from an empty table, the keys of the table, in order,
    are the keys of the recorded calls in the order of their first
    occurrence. No record is ever removed or moved: whatever the table,
    its keys after further calls start with its keys before them. *)
Theorem xref_table_first_seen_order (w : World App) (invs : list Invocation) :
  xrefs (runData w) = [] →
  let table := λ l, xrefs (runData (after_invocations original l w)) in
  xref_key <$> table invs = first_seen (omap tracked invs)
  ∧ ∀ more, (xref_key <$> table invs) `prefix_of` (xref_key <$> table (invs ++ more)).
Proof.
  intros Hw table.
  assert (∀ l inv, xref_key <$> table (l ++ [inv]) =
                   match tracked inv with
                   | Some k => if decide (k ∈ xref_key <$> table l)
                               then xref_key <$> table l
                               else (xref_key <$> table l) ++ [k]
                   | None => xref_key <$> table l
                   end) as Hstep.
  { intros l inv. unfold table. rewrite after_invocations_snoc, invoke_xrefs.
    destruct (tracked inv) as [[m l']|]; [|done]. apply record_xref_keys. }
  split.
  - induction invs as [|inv invs IH] using rev_ind.
    + unfold table. simpl. by rewrite Hw.
    + rewrite Hstep, omap_app. unfold first_seen in *. simpl.
      destruct (tracked inv) as [k|]; simpl.
      * rewrite foldl_snoc, <- IH. done.
      * by rewrite app_nil_r.
  - intros more. induction more as [|inv more IH] using rev_ind.
    + by rewrite app_nil_r.
    + rewrite app_assoc, Hstep. etrans; [exact IH|].
      destruct (tracked inv) as [k|]; [|done].
      case_decide; [done|]. by apply prefix_app_r.
Qed.

Lemma table_total invs (w : World App) :
  total_count (xrefs (runData (after_invocations original invs w)))
  = total_count (xrefs (runData w)) + Z.of_nat (length (omap tracked invs)).
Proof.
  induction invs as [|inv invs IH] using rev_ind.
  - simpl. lia.
  - rewrite after_invocations_snoc, invoke_xrefs, omap_app, length_app.
    simpl. destruct (tracked inv) as [[m l]|]; simpl.
    + rewrite record_xref_total, IH. lia.
    + rewrite IH. lia.
Qed.

Lemma table_positive invs (w : World App) :
  Forall (λ x, 1 ≤ count x) (xrefs (runData w)) →
  Forall (λ x, 1 ≤ count x) (xrefs (runData (after_invocations original invs w))).
Proof.
  intros Hw. induction invs as [|inv invs IH] using rev_ind; [done|].
  rewrite after_invocations_snoc, invoke_xrefs.
  destruct (tracked inv) as [[m l]|]; [|done]. by apply record_xref_positive.
Qed.

(** X7. From the empty table, no recorded call is lost and none is
    counted twice: the counts of the table add up to the number of the
    calls that were recorded, and further calls add their number to that
    sum. Every count is at least 1 and at most the number of the recorded
    calls. *)
Theorem xref_table_total (w : World App) (invs more : list Invocation) :
  xrefs (runData w) = [] →
  let table := λ l, xrefs (runData (after_invocations original l w)) in
  total_count (table invs) = Z.of_nat (length (omap tracked invs))
  ∧ total_count (table (invs ++ more))
    = total_count (table invs) + Z.of_nat (length (omap tracked more))
  ∧ ∀ x, x ∈ table invs → 1 ≤ count x ≤ Z.of_nat (length (omap tracked invs)).
Proof.
  intros Hw table.
  assert (total_count (table invs) = Z.of_nat (length (omap tracked invs))) as Htotal.
  { unfold table. rewrite table_total, Hw. simpl. lia. }
  split; [done|]. split.
  - unfold table, after_invocations. rewrite fold_left_app.
    apply (table_total more).
  - intros x Hx.
    assert (Forall (λ x, 1 ≤ count x) (table invs)) as Hpos.
    { apply table_positive. by rewrite Hw. }
    split.
    + rewrite Forall_forall in Hpos. by apply Hpos.
    + rewrite <- Htotal. by apply count_le_total.
Qed.

End TableOrder.

Lemma xref_table_first_seen_order_witness :
  let invs := [ sample_invocation "run" 42 (Some "Main.java");
                sample_invocation "stop" 7 (Some "SourceFile");
                sample_invocation "run" 42 (Some "Main.java");
                sample_invocation "run" 42 None ] in
  let table := λ l, xrefs (runData (after_invocations sample_original l (initial O))) in
  xref_key <$> table invs = first_seen (omap tracked invs)
  ∧ ∀ more, (xref_key <$> table invs) `prefix_of` (xref_key <$> table (invs ++ more)).
Proof.
  apply (xref_table_first_seen_order sample_original (initial O)
           [ sample_invocation "run" 42 (Some "Main.java");
             sample_invocation "stop" 7 (Some "SourceFile");
             sample_invocation "run" 42 (Some "Main.java");
             sample_invocation "run" 42 None ]).
  reflexivity.
Defined.

Lemma xref_table_total_witness :
  let invs := [ sample_invocation "run" 42 (Some "Main.java");
                sample_invocation "run" 42 None;
                sample_invocation "run" 42 (Some "Main.java") ] in
  let more := [ sample_invocation "stop" 7 (Some "SourceFile") ] in
  let table := λ l, xrefs (runData (after_invocations sample_original l (initial O))) in
  total_count (table invs) = Z.of_nat (length (omap tracked invs))
  ∧ total_count (table (invs ++ more))
    = total_count (table invs) + Z.of_nat (length (omap tracked more))
  ∧ ∀ x, x ∈ table invs → 1 ≤ count x ≤ Z.of_nat (length (omap tracked invs)).
Proof.
  apply (xref_table_total sample_original (initial O)
           [ sample_invocation "run" 42 (Some "Main.java");
             sample_invocation "run" 42 None;
             sample_invocation "run" 42 (Some "Main.java") ]
           [ sample_invocation "stop" 7 (Some "SourceFile") ]).
  reflexivity.
Defined.

(** ** The source of a location *)

Lemma starts_with_spec p s : JS.starts_with p s = true ↔ ∃ b, s = p +:+ b.
Proof.
  revert s. induction p as [|a p IH]; intros s.
  - split; [by exists s|done].
  - destruct s as [|c s]; simpl.
    + split; [done|]. by intros [b ?].
    + rewrite andb_true_iff, bool_decide_eq_true, IH. split.
      * intros [-> [b ->]]. by exists b.
      * intros [b E]. rewrite app_cons in E. injection E as -> ->. eauto.
Qed.

Lemma includes_spec p s : JS.includes p s = true ↔ ∃ a b, s = a +:+ p +:+ b.
Proof.
  induction s as [|c s IH].
  - simpl. rewrite orb_false_r, starts_with_spec. split.
    + intros [b ->]. by exists "", b.
    + intros ([|? a] & b & E); [by exists b|done].
  - simpl. rewrite orb_true_iff, starts_with_spec, IH. split.
    + intros [[b ->]|(a & b & ->)]; [by exists "", b|by exists (String c a), b].
    + intros ([|c' a] & b & E).
      * left. by exists b.
      * right. rewrite app_cons in E. injection E as -> ->. eauto.
Qed.

(** X8. The source of a recorded location is decided by the occurrence of
    [.java] in the file name of the caller's frame, wherever it occurs:
    [DEBUG] when the name ends in [.java], and also when [.java] is
    followed by more characters; [BINARY] for every other name, the
    name of a Kotlin file for one. *)
Theorem source_is_debug_when_java_occurs
    (trace : list StackTraceElement) (frame : StackTraceElement) (filename : string) :
  trace !! 3%nat = Some frame →
  getFileName frame = Some filename →
  ∃ l, location_of trace = Ok l
       ∧ callingMethod l = getMethodName frame
       ∧ position l = getLineNumber frame
       ∧ (source l = DEBUG ↔ ∃ a b, filename = a +:+ ".java" +:+ b)
       ∧ (source l = BINARY ↔ ¬ ∃ a b, filename = a +:+ ".java" +:+ b).
Proof.
  intros Ht Hf. rewrite (location_of_frame trace frame filename) by done.
  exists (mkLocation (getMethodName frame) (getLineNumber frame)
            (if JS.match_dot_java filename then DEBUG else BINARY)).
  repeat split; try done; simpl; unfold JS.match_dot_java;
    rewrite <- includes_spec; destruct (JS.includes ".java" filename);
    try done; intros H; by destruct H.
Qed.

Lemma source_is_debug_when_java_occurs_witness :
  ∃ l, location_of (sample_trace "run" 42 (Some "Main.java.orig")) = Ok l
       ∧ callingMethod l = getMethodName (mkFrame "run" 42 (Some "Main.java.orig"))
       ∧ position l = getLineNumber (mkFrame "run" 42 (Some "Main.java.orig"))
       ∧ (source l = DEBUG ↔ ∃ a b, "Main.java.orig" = a +:+ ".java" +:+ b)
       ∧ (source l = BINARY ↔ ¬ ∃ a b, "Main.java.orig" = a +:+ ".java" +:+ b).
Proof.
  apply (source_is_debug_when_java_occurs
           (sample_trace "run" 42 (Some "Main.java.orig"))
           (mkFrame "run" 42 (Some "Main.java.orig")) "Main.java.orig");
    reflexivity.
Defined.

(** ** The key of a cross-reference leaves the file out *)

Section TrackerKey.
Context {App : Type}.
Variable original : Call → App → Result JValue * App.

Lemma tracked_frame inv frame filename :
  inv_trace inv !! 3%nat = Some frame →
  getFileName frame = Some filename →
  tracked inv =
  Some (method_of (inv_this inv),
        mkLocation (getMethodName frame) (getLineNumber frame)
          (if JS.match_dot_java filename then DEBUG else BINARY)).
Proof.
  intros Ht Hf. unfold tracked. by rewrite (location_of_frame _ frame filename).
Qed.

(** X9. The key of a record holds the name of the calling method, the
    line and the kind of source, and neither the name of the file nor the
    class of the caller: two reflexive calls of one method, made from
    frames with the same method name and the same line, in two files
    which both have [.java] in their names or both have not, are counted
    in one record, with count 2. *)
Theorem callers_in_two_files_share_a_record (w : World App) (inv1 inv2 : Invocation)
    (frame1 frame2 : StackTraceElement) (file1 file2 : string) :
  xrefs (runData w) = [] →
  inv_trace inv1 !! 3%nat = Some frame1 →
  inv_trace inv2 !! 3%nat = Some frame2 →
  getFileName frame1 = Some file1 →
  getFileName frame2 = Some file2 →
  method_of (inv_this inv1) = method_of (inv_this inv2) →
  getMethodName frame1 = getMethodName frame2 →
  getLineNumber frame1 = getLineNumber frame2 →
  JS.match_dot_java file1 = JS.match_dot_java file2 →
  xrefs (runData (after_invocations original [inv1; inv2] w)) =
  [mkXref (method_of (inv_this inv1))
     (mkLocation (getMethodName frame1) (getLineNumber frame1)
        (if JS.match_dot_java file1 then DEBUG else BINARY)) 2].
Proof.
  intros Hempty Ht1 Ht2 Hf1 Hf2 Hm Hn Hl Hs.
  unfold after_invocations. cbn [fold_left].
  rewrite !invoke_xrefs, Hempty.
  rewrite (tracked_frame inv1 frame1 file1), (tracked_frame inv2 frame2 file2) by done.
  rewrite <- Hm, <- Hn, <- Hl, <- Hs. cbn [fst snd].
  set (m := method_of (inv_this inv1)).
  set (l := mkLocation _ _ _).
  change (record_xref m l []) with [mkXref m l 1].
  rewrite record_xref_cons_same; [done|].
  by rewrite has_key_new, bool_decide_true.
Qed.

End TrackerKey.

Lemma callers_in_two_files_share_a_record_witness :
  xrefs (runData (after_invocations sample_original
                    [ sample_invocation "run" 42 (Some "Main.java");
                      sample_invocation "run" 42 (Some "Other.java") ] (initial O))) =
  [mkXref (method_of sample_method) (mkLocation "run" 42 DEBUG) 2].
Proof.
  apply (callers_in_two_files_share_a_record sample_original (initial O)
           (sample_invocation "run" 42 (Some "Main.java"))
           (sample_invocation "run" 42 (Some "Other.java"))
           (mkFrame "run" 42 (Some "Main.java"))
           (mkFrame "run" 42 (Some "Other.java")) "Main.java" "Other.java");
    reflexivity.
Defined.

(** ** hookDynamicMethod and the hook of loadClass *)

Section Dynamic.
Context {App : Type}.
Variable original : Call → App → Result JValue * App.
Variable enumerateClassLoadersSync : App → list nat.
Variable overloads_through : App → nat → string → string → option (list (list string)).

Lemma installed_nothing (w : World App) : set_implementations (λ l, l ++ []) w = w.
Proof. destruct w. unfold set_implementations. simpl. by rewrite app_nil_r. Qed.

Lemma installed_more a b (w : World App) :
  set_implementations (λ l, l ++ b) (set_implementations (λ l, l ++ a) w)
  = set_implementations (λ l, l ++ (a ++ b)) w.
Proof. destruct w. unfold set_implementations. simpl. by rewrite app_assoc. Qed.

Lemma install_all {A} (f : A → Implementation) (xs : list A) (w : World App) :
  forEach (λ x, install (f x)) xs w
  = (Ok tt, set_implementations (λ l, l ++ (f <$> xs)) w).
Proof.
  revert w. induction xs as [|x xs IH]; intros w.
  - simpl. unfold ret. by rewrite installed_nothing.
  - cbn [forEach]. unfold bind, install, modify at 1. rewrite IH.
    by rewrite installed_more.
Qed.

Lemma hook_through_loaders (a : App) cls meth loaders (w : World App) :
  forEach
    (λ loader,
       try_catch
         (match overloads_through a loader cls meth with
          | None => throw (JavaUseError cls)
          | Some overloads =>
              forEach (λ o, install (ImplDynamic loader cls meth o)) overloads
          end)
         (λ _, ret tt))
    loaders w
  = (Ok tt, set_implementations
              (λ l, l ++ dynamic_hooks overloads_through a loaders cls meth) w).
Proof.
  revert w. induction loaders as [|loader loaders IH]; intros w.
  - simpl. unfold ret. by rewrite installed_nothing.
  - cbn [forEach]. unfold bind, try_catch at 1.
    destruct (overloads_through a loader cls meth) as [overloads|] eqn:Ho.
    + rewrite install_all, IH, installed_more.
      unfold dynamic_hooks. simpl. by rewrite Ho.
    + unfold throw, ret. rewrite IH. unfold dynamic_hooks. simpl. by rewrite Ho.
Qed.

Lemma hookDynamicMethod_result cls meth (w : World App) :
  hookDynamicMethod enumerateClassLoadersSync overloads_through cls meth w
  = (Ok tt, set_implementations
              (λ l, l ++ dynamic_hooks overloads_through (process w)
                           (enumerateClassLoadersSync (process w)) cls meth) w).
Proof. unfold hookDynamicMethod, bind, get. simpl. apply hook_through_loaders. Qed.

Lemma hook_methods cls methods (w : World App) :
  forEach (hookDynamicMethod enumerateClassLoadersSync overloads_through cls) methods w
  = (Ok tt, set_implementations
              (λ l, l ++ flat_map
                           (dynamic_hooks overloads_through (process w)
                              (enumerateClassLoadersSync (process w)) cls)
                           methods) w).
Proof.
  revert w. induction methods as [|m methods IH]; intros w.
  - simpl. unfold ret. by rewrite installed_nothing.
  - cbn [forEach]. unfold bind. rewrite hookDynamicMethod_result, IH.
    by rewrite installed_more.
Qed.

(** X10. [hookDynamicMethod] never throws. It gives an implementation to
    every overload of the method that it finds through a class loader, for
    every class loader of the application in turn; a class loader through
    which the class or the method is not found gives none and does not
    stop the others. Nothing else changes. *)
Theorem hookDynamicMethod_installs (cls meth : string) (w : World App) :
  let r := hookDynamicMethod enumerateClassLoadersSync overloads_through cls meth w in
  let loaders := enumerateClassLoadersSync (process w) in
  r = (Ok tt, set_implementations
                (λ l, l ++ dynamic_hooks overloads_through (process w) loaders cls meth) w)
  ∧ (∀ loader o,
       ImplDynamic loader cls meth o ∈ dynamic_hooks overloads_through (process w) loaders cls meth
       ↔ loader ∈ loaders
         ∧ ∃ overloads, overloads_through (process w) loader cls meth = Some overloads
                        ∧ o ∈ overloads).
Proof.
  intros r loaders. split; [apply hookDynamicMethod_result|].
  intros loader o. unfold dynamic_hooks. rewrite list_elem_of_In, in_flat_map.
  split.
  - intros (loader' & Hin & Ho). apply list_elem_of_In in Hin.
    destruct (overloads_through (process w) loader' cls meth) as [overloads|] eqn:E;
      [|by apply list_elem_of_In, elem_of_nil in Ho].
    apply list_elem_of_In, list_elem_of_fmap in Ho as (o' & [= -> ->] & Ho').
    eauto.
  - intros (Hin & overloads & E & Ho). exists loader. split; [by apply list_elem_of_In|].
    rewrite E. apply list_elem_of_In, list_elem_of_fmap. eauto.
Qed.

(** X11. The hook of [loadClass] installs the dynamic hooks of a class when
    that class has just been loaded, and only then: when the original
    [loadClass] throws, the exception goes to the caller and nothing is
    installed; when it returns and the class is a key of [hookedMethods],
    every method listed for the class is hooked through the class loaders
    the application has after the loading, and the loaded class is
    returned; when the class is not configured, nothing is installed. *)
Theorem loadClass_hooks_after_loading (classLoaderName : string) (this : JValue)
    (className : string) (w : World App) :
  let c := CallLoadClass classLoaderName this className in
  let r := loadClass_implementation original enumerateClassLoadersSync
             overloads_through classLoaderName this className w in
  (∀ e a, original c (process w) = (Throw e, a) →
          r.1 = Throw e ∧ implementations r.2 = implementations w)
  ∧ (∀ v a methods,
       original c (process w) = (Ok v, a) →
       hookedMethods w !! className = Some methods →
       r.1 = Ok v
       ∧ implementations r.2 =
         implementations w ++
         flat_map (dynamic_hooks overloads_through a (enumerateClassLoadersSync a) className)
           methods)
  ∧ (∀ v a,
       original c (process w) = (Ok v, a) →
       hookedMethods w !! className = None →
       JS.inherited className = false →
       r.1 = Ok v ∧ implementations r.2 = implementations w).
Proof.
  intros c r. unfold r, loadClass_implementation, bind, call_original. fold c.
  split; [|split].
  - intros e a ->. done.
  - intros v a methods -> Hm. unfold get. simpl. unfold JS.has_property.
    rewrite Hm, bool_decide_true by eauto. simpl.
    rewrite hook_methods. done.
  - intros v a -> Hm Hinh. unfold get. simpl. unfold JS.has_property.
    rewrite Hm, Hinh, bool_decide_false by (by intros [? ?]). done.
Qed.

End Dynamic.

Lemma loadClass_hooks_after_loading_witness :
  let w := set_hookedMethods (λ _, {[ "a.B" := ["run"] ]}) (initial O) in
  let found := λ (a loader : nat) (cls meth : string), Some [["int"]; []] in
  let r := loadClass_implementation sample_original sample_loaders found
             "PathClassLoader" (JRef 1) "a.B" w in
  r.1 = Ok (JString "result")
  ∧ implementations r.2 =
    implementations w ++
    flat_map (dynamic_hooks found 1%nat (sample_loaders 1%nat) "a.B") ["run"].
Proof.
  destruct (loadClass_hooks_after_loading sample_original sample_loaders
              (λ (a loader : nat) (cls meth : string), Some [["int"]; []])
              "PathClassLoader" (JRef 1) "a.B"
              (set_hookedMethods (λ _, {[ "a.B" := ["run"] ]}) (initial O)))
    as (_ & H & _).
  apply (H (JString "result") 1%nat ["run"]); reflexivity.
Defined.

(** ** overrideloadClassForDynHooking *)

Section LoadClassSetup.
Context {App : Type}.
Variable available : string → bool.
Variable has_overload : string → string → list string → bool.

(** The world after [loadClass] of one class loader was looked up. *)
Lemma hook_loadClass_one classLoaderName (w : World App) :
  (let* classLoader := tryJavaUse available ("dalvik.system." +:+ classLoaderName) in
   match classLoader with
   | None => ret tt
   | Some cls =>
       tryOverride
         (overload has_overload cls "loadClass" ["java.lang.String"] >>
          install (ImplLoadClass classLoaderName))
         (classLoaderName +:+ ".loadClass(String className)")
   end) w =
  (Ok tt,
   if available ("dalvik.system." +:+ classLoaderName) then
     if loadClass_resolved available has_overload classLoaderName
     then set_implementations (λ l, l ++ [ImplLoadClass classLoaderName]) w
     else w
   else set_console (λ c, c ++ ["Could not find dalvik.system." +:+ classLoaderName]) w).
Proof.
  unfold bind at 1. rewrite tryJavaUse_result. unfold use, loadClass_resolved.
  destruct (available _); [|done]. simpl.
  unfold tryOverride, try_catch, overload, bind.
  destruct (has_overload _ _ _); [done|]. simpl. by rewrite log2_silent.
Qed.

Lemma hook_loadClass_all names (w : World App) :
  forEach
    (λ classLoaderName,
       let* classLoader := tryJavaUse available ("dalvik.system." +:+ classLoaderName) in
       match classLoader with
       | None => ret tt
       | Some cls =>
           tryOverride
             (overload has_overload cls "loadClass" ["java.lang.String"] >>
              install (ImplLoadClass classLoaderName))
             (classLoaderName +:+ ".loadClass(String className)")
       end) names w =
  (Ok tt,
   set_implementations
     (λ l, l ++ (ImplLoadClass <$>
                   filter (λ n, loadClass_resolved available has_overload n = true) names))
     (set_console
        (λ c, c ++ ((λ n, "Could not find dalvik.system." +:+ n) <$>
                      filter (λ n, available ("dalvik.system." +:+ n) = false) names))
        w)).
Proof.
  revert w. induction names as [|n names IH]; intros w.
  - simpl. unfold ret. f_equal. destruct w.
    unfold set_implementations, set_console. simpl. by rewrite !app_nil_r.
  - cbn [forEach]. unfold bind at 1. rewrite hook_loadClass_one, IH.
    rewrite !filter_cons. unfold loadClass_resolved.
    destruct (available _) eqn:Ha; cbn [andb];
      [destruct (has_overload _ _ _) eqn:Ho|];
      repeat case_decide; try done;
      f_equal; destruct w; unfold set_implementations, set_console; simpl;
      by rewrite <- ?app_assoc.
Qed.

Lemma overrideloadClassForDynHooking_result (w : World App) :
  overrideloadClassForDynHooking available has_overload w =
  (Ok tt,
   set_implementations
     (λ l, l ++ (ImplLoadClass <$>
                   filter (λ n, loadClass_resolved available has_overload n = true)
                     loadClass_loaders))
     (set_console
        (λ c, c ++ ((λ n, "Could not find dalvik.system." +:+ n) <$>
                      filter (λ n, available ("dalvik.system." +:+ n) = false)
                        loadClass_loaders))
        w)).
Proof. apply hook_loadClass_all. Qed.

(** X12. [overrideloadClassForDynHooking] never throws. It gives an
    implementation to [loadClass(String)] of each of the four class
    loaders it lists that is found on the runtime with that overload, in
    the order of the list and whatever becomes of the others; it prints
    [Could not find dalvik.system.<name>] for each class that is not
    found, and nothing for a class that lacks the overload; and it
    touches nothing else. *)
Theorem loadClass_hooks_installed (w : World App) :
  let r := overrideloadClassForDynHooking available has_overload w in
  let hooked := filter (λ n, loadClass_resolved available has_overload n = true)
                  loadClass_loaders in
  let missing := filter (λ n, available ("dalvik.system." +:+ n) = false)
                   loadClass_loaders in
  r.1 = Ok tt
  ∧ implementations r.2 = implementations w ++ (ImplLoadClass <$> hooked)
  ∧ console r.2 = console w ++ ((λ n, "Could not find dalvik.system." +:+ n) <$> missing)
  ∧ (∀ n, ImplLoadClass n ∈ implementations r.2 ↔
          ImplLoadClass n ∈ implementations w
          ∨ n ∈ loadClass_loaders ∧ loadClass_resolved available has_overload n = true)
  ∧ hookedMethods r.2 = hookedMethods w
  ∧ same_traffic w r.2.
Proof.
  intros r hooked missing. unfold r.
  rewrite overrideloadClassForDynHooking_result. simpl.
  repeat split; try done.
  - intros [Hin|Hin]%elem_of_app; [by left|right].
    apply list_elem_of_fmap in Hin as (n' & [= <-] & Hn').
    by apply list_elem_of_filter in Hn' as [? ?].
  - intros [Hin|[Hin Hres]]; apply elem_of_app; [by left|right].
    apply list_elem_of_fmap. exists n. split; [done|].
    by apply list_elem_of_filter.
Qed.

End LoadClassSetup.

(** ** memoryClassLoaderHookSetup, on an array of buffers *)

Section MemoryArray.
Context {App : Type}.
Variable original : Call → App → Result JValue * App.
Variable hashBytes : list Byte.byte → string.

Lemma sent_no_buffer (w : World App) : sent_buffers hashBytes [] w = w.
Proof.
  destruct w as [[] ? ? ? ? ? ? ? ? ?].
  unfold sent_buffers, set_runData, set_outbox, set_console. simpl.
  by rewrite !app_nil_r.
Qed.

Lemma sent_one_more content contents (w : World App) :
  sent_buffers hashBytes contents (sent_buffers hashBytes [content] w)
  = sent_buffers hashBytes (content :: contents) w.
Proof.
  destruct w as [[] ? ? ? ? ? ? ? ? ?].
  unfold sent_buffers, set_runData, set_outbox, set_console. simpl.
  by rewrite <- !app_assoc.
Qed.

Lemma send_buffer_content content (w : World App) :
  send_buffer hashBytes (JByteBuffer content) w
  = (Ok tt, sent_buffers hashBytes [content] w).
Proof. reflexivity. Qed.

Lemma send_buffer_null (w : World App) :
  send_buffer hashBytes JNull w
  = (Throw (TypeError "buffer.array is not a function"), w).
Proof. reflexivity. Qed.

Lemma send_buffers contents (w : World App) :
  forEach (send_buffer hashBytes) (JByteBuffer <$> contents) w
  = (Ok tt, sent_buffers hashBytes contents w).
Proof.
  revert w. induction contents as [|content contents IH]; intros w.
  - simpl. unfold ret. by rewrite sent_no_buffer.
  - rewrite fmap_cons. cbn [forEach]. unfold bind.
    rewrite send_buffer_content, IH. by rewrite sent_one_more.
Qed.

Lemma send_buffers_until contents bad others e (w : World App) :
  (∀ w' : World App, send_buffer hashBytes bad w' = (Throw e, w')) →
  forEach (send_buffer hashBytes) ((JByteBuffer <$> contents) ++ bad :: others) w
  = (Throw e, sent_buffers hashBytes contents w).
Proof.
  intros Hbad. rewrite forEach_app. unfold bind at 1. rewrite send_buffers.
  cbn [forEach]. unfold bind. by rewrite Hbad.
Qed.

(** X13. A constructor given an array of byte buffers sends one [dex]
    message for each buffer of the array, in the order of the array, under
    the name [memory-] followed by the digest of the buffer, with the
    bytes of the buffer, and records these names in [dexFiles] in the same
    order, a buffer that occurs twice being sent and recorded twice; then
    it calls the original constructor with the arguments it was given. An
    empty array sends nothing and the constructor is called all the
    same. *)
Theorem memory_array_captures (d : LoaderDescriptor) (this : JValue)
    (contents : list (list Byte.byte)) (rest : list JValue) (w : World App) :
  let args := JArray (JByteBuffer <$> contents) :: rest in
  let r := memoryClassLoaderHook original hashBytes true d this args w in
  outbox r.2 = outbox w ++ ((λ c, MsgDex (memory_name hashBytes c) c) <$> contents)
  ∧ dexFiles (runData r.2) = dexFiles (runData w) ++ (memory_name hashBytes <$> contents)
  ∧ xrefs (runData r.2) = xrefs (runData w)
  ∧ calls r.2 = calls w ++ [CallInit d this args]
  ∧ (r.1, process r.2) = original (CallInit d this args) (process w).
Proof.
  intros args r.
  assert (r = call_original original (CallInit d this args)
                (sent_buffers hashBytes contents
                   (set_console (λ c, c ++ ["Loading new dex from memory buffer"]) w)))
    as ->.
  { unfold r, memoryClassLoaderHook, bind. rewrite log_prints. simpl.
    rewrite send_buffers. done. }
  destruct (call_original_keeps original (CallInit d this args)
              (sent_buffers hashBytes contents
                 (set_console (λ c, c ++ ["Loading new dex from memory buffer"]) w)))
    as (-> & -> & _ & -> & ->).
  done.
Qed.

(** X14. When an element of the array is [null], the buffers before it
    have been sent and recorded, the hook throws a [TypeError] at that
    element, the buffers after it are not sent, and the original
    constructor is not called. *)
Theorem memory_array_stops_at_null (d : LoaderDescriptor) (this : JValue)
    (contents : list (list Byte.byte)) (others rest : list JValue) (w : World App) :
  let args := JArray ((JByteBuffer <$> contents) ++ JNull :: others) :: rest in
  let r := memoryClassLoaderHook original hashBytes true d this args w in
  (∃ what, r.1 = Throw (TypeError what))
  ∧ outbox r.2 = outbox w ++ ((λ c, MsgDex (memory_name hashBytes c) c) <$> contents)
  ∧ dexFiles (runData r.2) = dexFiles (runData w) ++ (memory_name hashBytes <$> contents)
  ∧ calls r.2 = calls w
  ∧ process r.2 = process w.
Proof.
  intros args r.
  assert (r = (Throw (TypeError "buffer.array is not a function"),
               sent_buffers hashBytes contents
                 (set_console (λ c, c ++ ["Loading new dex from memory buffer"]) w)))
    as ->.
  { unfold r, memoryClassLoaderHook, bind. rewrite log_prints. simpl.
    by rewrite (send_buffers_until contents JNull others
                  (TypeError "buffer.array is not a function")). }
  split; [by eexists|done].
Qed.

End MemoryArray.

(** ** Java.perform: the start of a session *)

Section SessionStart.
Context {App : Type}.
Variable available : string → bool.
Variable has_overload : string → string → list string → bool.

(** Reading the payload changes the hook configuration and nothing else. *)
Lemma on_line_configures line (w : World App) :
  ∃ h, (on_line line w).2 = set_hookedMethods (λ _, h) w.
Proof.
  unfold on_line, bind, get, lift, modify.
  destruct (add_hook line (hookedMethods w)) as [h|e]; simpl.
  - by exists h.
  - exists (hookedMethods w). by destruct w.
Qed.

Lemma on_lines_configure lines (w : World App) :
  ∃ h, (forEach on_line lines w).2 = set_hookedMethods (λ _, h) w.
Proof.
  revert w. induction lines as [|line lines IH]; intros w.
  - exists (hookedMethods w). by destruct w.
  - cbn [forEach]. unfold bind.
    destruct (on_line_configures line w) as [h Hh].
    destruct (on_line line w) as [[[]|e] w1]; simpl in Hh; subst w1.
    + destruct (IH (set_hookedMethods (λ _, h) w)) as [h' Hh'].
      exists h'. rewrite Hh'. by destruct w.
    + by exists h.
Qed.

Lemma on_hooks_configures hooks (w : World App) :
  ∃ h, (on_hooks hooks w).2 = set_hookedMethods (λ _, h) w.
Proof.
  unfold on_hooks. case_bool_decide; [|apply on_lines_configure].
  exists (hookedMethods w). by destruct w.
Qed.

(** [fetchHookConfig] returns, whatever the callback did: what the
    callback threw has been reported. *)
Lemma fetchHookConfig_configures hooks (a : App) :
  ∃ h errors,
    fetchHookConfig hooks (initial a)
    = (Ok tt, set_reported (λ _, errors)
                (set_hookedMethods (λ _, h) (set_outbox (λ _, [MsgSetup]) (initial a))))
    ∧ hookedMethods (on_hooks hooks (set_outbox (λ _, [MsgSetup]) (initial a))).2 = h
    ∧ errors = match (on_hooks hooks (set_outbox (λ _, [MsgSetup]) (initial a))).1 with
               | Ok _ => []
               | Throw e => [e]
               end.
Proof.
  rewrite fetchHookConfig_initial. unfold try_catch.
  destruct (on_hooks_configures hooks (set_outbox (λ _, [MsgSetup]) (initial a)))
    as [h Hh].
  destruct (on_hooks hooks _) as [[[]|e] w1]; simpl in Hh; subst w1.
  - by exists h, [].
  - by exists h, [e].
Qed.

Lemma captureInvokeCalls_result (w : World App) :
  captureInvokeCalls available has_overload w =
  if invoke_resolved available has_overload
  then (Ok tt, set_implementations (λ l, l ++ [ImplInvoke]) w)
  else (Throw (JavaUseError
                 (if available "java.lang.reflect.Method"
                  then "java.lang.reflect.Method.invoke"
                  else "java.lang.reflect.Method")), w).
Proof.
  unfold captureInvokeCalls, invoke_resolved, Java_use, overload, bind.
  destruct (available _); [|done]. simpl.
  by destruct (has_overload _ _ _).
Qed.

Lemma main_configured hooks (a : App) (configured : World App) :
  fetchHookConfig hooks (initial a) = (Ok tt, configured) →
  main available has_overload hooks (initial a)
  = captureInvokeCalls available has_overload
      (overrideClassLoaderInit available has_overload
         (overrideloadClassForDynHooking available has_overload
            (set_operations (λ _, [("rundata", OnRunData)]) configured)).2).2
  ∧ operations configured = [] ∧ pending configured = []
  ∧ outbox configured = [MsgSetup] ∧ runData configured = mkRunData [] []
  ∧ console configured = [] ∧ implementations configured = []
  ∧ calls configured = [] ∧ process configured = a.
Proof.
  intros Hconf.
  destruct (fetchHookConfig_configures hooks a) as (h & errors & Hh & _).
  rewrite Hconf in Hh. injection Hh as ->.
  split; [|done].
  unfold main. unfold bind at 1. rewrite Hconf. cbv beta iota.
  unfold bind at 1. rewrite setupExitHandler_registers by reflexivity. cbv beta iota.
  unfold bind at 1. rewrite overrideloadClassForDynHooking_result.
  cbv beta iota. cbn [snd].
  unfold bind at 1. rewrite overrideClassLoaderInit_result. reflexivity.
Qed.

(** X15. When the hook configuration has been read, the start of the
    session registers the one [rundata] callback and then installs, in
    this order, the [loadClass] hooks, the constructor hooks of the
    registry, and the hook of [Method.invoke]; each of the first two
    groups holds what the runtime resolves. The start returns exactly
    when [Method.invoke] is resolved: its lookup is the one lookup outside
    [tryOverride] and [tryJavaUse]. [setup] is the only message sent,
    nothing has been gathered, no method of the application has been
    called; and a class loader that is not found is reported twice, by
    each of the two functions that look it up. *)
Theorem session_start_installs (hooks : string) (a : App) (configured : World App) :
  fetchHookConfig hooks (initial a) = (Ok tt, configured) →
  let r := main available has_overload hooks (initial a) in
  (r.1 = Ok tt ↔ invoke_resolved available has_overload = true)
  ∧ implementations r.2 =
      (ImplLoadClass <$> filter (λ n, loadClass_resolved available has_overload n = true)
                           loadClass_loaders)
      ++ (ImplInit <$> filter (λ d, resolved has_overload d = true) (registry_on available))
      ++ (if invoke_resolved available has_overload then [ImplInvoke] else [])
  ∧ hookedMethods r.2 = hookedMethods configured
  ∧ operations r.2 = [("rundata", OnRunData)]
  ∧ pending r.2 = []
  ∧ outbox r.2 = [MsgSetup]
  ∧ runData r.2 = mkRunData [] []
  ∧ calls r.2 = []
  ∧ process r.2 = a
  ∧ console r.2 =
      ((λ n, "Could not find dalvik.system." +:+ n) <$>
         filter (λ n, available ("dalvik.system." +:+ n) = false) loadClass_loaders)
      ++ ((λ cls, "Could not find " +:+ cls) <$>
            filter (λ cls, available cls = false) loader_classes).
Proof.
  intros Hconf r.
  destruct (main_configured hooks a configured Hconf)
    as (Hr & Ho & Hp & Hout & Hrd & Hcon & Himpl & Hcalls & Hproc).
  unfold r. rewrite Hr.
  rewrite overrideloadClassForDynHooking_result, overrideClassLoaderInit_result,
    captureInvokeCalls_result.
  destruct (invoke_resolved available has_overload); simpl;
    rewrite Hp, Hout, Hrd, Hcon, Himpl, Hcalls, Hproc, ?app_nil_r, <- ?app_assoc;
    repeat split; done || reflexivity.
Qed.

(** X16. When the callback of [recv] throws on the payload, the exception
    does not reach the function given to [Java.perform]: the runtime,
    which called the callback from its message handler, reports it, the
    operation is completed and [wait()] returns. [fetchHookConfig]
    returns, [hookedMethods] holds what the callback had read before it
    threw, and the start of the session goes on as it does after a
    callback that returned: the [rundata] callback is registered and the
    hooks are installed. *)
Theorem session_starts_after_callback_error (hooks : string) (a : App) (e : Error)
    (failed : World App) :
  on_hooks hooks (set_outbox (λ _, [MsgSetup]) (initial a)) = (Throw e, failed) →
  let configured := fetchHookConfig hooks (initial a) in
  let r := main available has_overload hooks (initial a) in
  configured.1 = Ok tt
  ∧ reported configured.2 = [e]
  ∧ hookedMethods configured.2 = hookedMethods failed
  ∧ (r.1 = Ok tt ↔ invoke_resolved available has_overload = true)
  ∧ reported r.2 = [e]
  ∧ hookedMethods r.2 = hookedMethods failed
  ∧ operations r.2 = [("rundata", OnRunData)]
  ∧ implementations r.2 =
      (ImplLoadClass <$> filter (λ n, loadClass_resolved available has_overload n = true)
                           loadClass_loaders)
      ++ (ImplInit <$> filter (λ d, resolved has_overload d = true) (registry_on available))
      ++ (if invoke_resolved available has_overload then [ImplInvoke] else []).
Proof.
  intros Hthrow configured r.
  destruct (fetchHookConfig_configures hooks a) as (h & errors & Hconf & Hh & He).
  rewrite Hthrow in Hh, He. simpl in Hh, He. subst h errors.
  destruct (main_configured hooks a _ Hconf) as (Hr & _).
  unfold r, configured. rewrite Hr, Hconf.
  rewrite overrideloadClassForDynHooking_result, overrideClassLoaderInit_result,
    captureInvokeCalls_result.
  destruct (invoke_resolved available has_overload); simpl;
    rewrite ?app_nil_r, <- ?app_assoc; repeat split; done || reflexivity.
Qed.

End SessionStart.

Lemma session_start_installs_witness :
  let r := main sample_available sample_overloads "a.B.run" (initial O) in
  (r.1 = Ok tt ↔ invoke_resolved sample_available sample_overloads = true)
  ∧ implementations r.2 =
      (ImplLoadClass <$> filter (λ n, loadClass_resolved sample_available
                                        sample_overloads n = true)
                           loadClass_loaders)
      ++ (ImplInit <$> filter (λ d, resolved sample_overloads d = true)
                         (registry_on sample_available))
      ++ (if invoke_resolved sample_available sample_overloads then [ImplInvoke] else [])
  ∧ hookedMethods r.2
    = hookedMethods (set_hookedMethods (λ _, {[ "a.B" := ["run"] ]})
                       (set_outbox (λ _, [MsgSetup]) (initial O)))
  ∧ operations r.2 = [("rundata", OnRunData)]
  ∧ pending r.2 = []
  ∧ outbox r.2 = [MsgSetup]
  ∧ runData r.2 = mkRunData [] []
  ∧ calls r.2 = []
  ∧ process r.2 = O
  ∧ console r.2 =
      ((λ n, "Could not find dalvik.system." +:+ n) <$>
         filter (λ n, sample_available ("dalvik.system." +:+ n) = false) loadClass_loaders)
      ++ ((λ cls, "Could not find " +:+ cls) <$>
            filter (λ cls, sample_available cls = false) loader_classes).
Proof.
  apply (session_start_installs sample_available sample_overloads "a.B.run" O
           (set_hookedMethods (λ _, {[ "a.B" := ["run"] ]})
              (set_outbox (λ _, [MsgSetup]) (initial O)))).
  by vm_compute.
Defined.

Lemma session_starts_after_callback_error_witness :
  let hooks := "a.B.run" +:+ newline +:+ "toString.x" +:+ newline +:+ "c.D.stop" in
  let configured := fetchHookConfig hooks (initial O) in
  let r := main sample_available sample_overloads hooks (initial O) in
  configured.1 = Ok tt
  ∧ reported configured.2 = [TypeError "push is not a function"]
  ∧ hookedMethods configured.2
    = hookedMethods (set_hookedMethods (λ _, {[ "a.B" := ["run"] ]}) (initial O))
  ∧ (r.1 = Ok tt ↔ invoke_resolved sample_available sample_overloads = true)
  ∧ reported r.2 = [TypeError "push is not a function"]
  ∧ hookedMethods r.2
    = hookedMethods (set_hookedMethods (λ _, {[ "a.B" := ["run"] ]}) (initial O))
  ∧ operations r.2 = [("rundata", OnRunData)]
  ∧ implementations r.2 =
      (ImplLoadClass <$> filter (λ n, loadClass_resolved sample_available
                                        sample_overloads n = true)
                           loadClass_loaders)
      ++ (ImplInit <$> filter (λ d, resolved sample_overloads d = true)
                         (registry_on sample_available))
      ++ (if invoke_resolved sample_available sample_overloads then [ImplInvoke] else []).
Proof.
  apply (session_starts_after_callback_error sample_available sample_overloads
           ("a.B.run" +:+ newline +:+ "toString.x" +:+ newline +:+ "c.D.stop") O
           (TypeError "push is not a function")
           (set_hookedMethods (λ _, {[ "a.B" := ["run"] ]})
              (set_outbox (λ _, [MsgSetup]) (initial O)))).
  by vm_compute.
Defined.

(** ** The files sent and the files recorded *)

Global Instance recorded_since_preorder {App} : PreOrder (@recorded_since App).
Proof.
  split.
  - intros w. exists []. by rewrite !app_nil_r.
  - intros w1 w2 w3 (n1 & Ho1 & Hd1) (n2 & Ho2 & Hd2). exists (n1 ++ n2).
    rewrite Ho2, Hd2, Ho1, Hd1. by rewrite !app_assoc.
Qed.

Lemma recorded_nothing {App} (w w' : World App) :
  outbox w' = outbox w → dexFiles (runData w') = dexFiles (runData w) →
  recorded_since w w'.
Proof. intros Ho Hd. exists []. by rewrite Ho, Hd, !app_nil_r. Qed.

Lemma dex_filenames_app ms ms' :
  dex_filenames (ms ++ ms') = dex_filenames ms ++ dex_filenames ms'.
Proof. apply omap_app. Qed.

Section Recorded.
Context {App : Type}.
Variable original : Call → App → Result JValue * App.
Variable enumerateClassLoadersSync : App → list nat.
Variable overloads_through : App → nat → string → string → option (list (list string)).
Variable inspect : list JValue → string.
Variable readBytes : App → string → option (list Byte.byte).
Variable hashBytes : list Byte.byte → string.

Lemma recorded_modify (f : World App → World App) :
  (∀ w, outbox (f w) = outbox w ∧ dexFiles (runData (f w)) = dexFiles (runData w)) →
  keeps recorded_since (modify f).
Proof. intros Hf w. apply recorded_nothing; apply Hf. Qed.

Lemma recorded_log msg : keeps recorded_since (log (App:=App) msg).
Proof. by apply recorded_modify. Qed.

Lemma recorded_console_log msg : keeps recorded_since (console_log (App:=App) msg).
Proof. by apply recorded_modify. Qed.

Lemma recorded_install i : keeps recorded_since (install (App:=App) i).
Proof. by apply recorded_modify. Qed.

Lemma recorded_call_original c : keeps recorded_since (call_original original c).
Proof.
  intros w. destruct (call_original_keeps original c w) as (Hrd & Ho & _).
  apply recorded_nothing; [done|by rewrite Hrd].
Qed.

Lemma recorded_captured filename content (w w' : World App) :
  outbox w' = outbox w ++ [MsgDex filename content] →
  dexFiles (runData w') = dexFiles (runData w) ++ [filename] →
  recorded_since w w'.
Proof.
  intros Ho Hd. exists [filename]. by rewrite Ho, Hd, dex_filenames_app.
Qed.

Lemma recorded_send_buffer buffer :
  keeps recorded_since (send_buffer (App:=App) hashBytes buffer).
Proof.
  intros w. destruct buffer; try reflexivity.
  by apply (recorded_captured ("memory-" +:+ hashBytes content) content).
Qed.

#[local] Hint Resolve recorded_since_preorder recorded_log recorded_console_log recorded_install
  recorded_call_original recorded_send_buffer : frames.
#[local] Hint Extern 0 (keeps recorded_since (modify _)) =>
  apply recorded_modify; done : frames.

Lemma recorded_memoryClassLoaderHook b d this args :
  keeps recorded_since (memoryClassLoaderHook original hashBytes b d this args).
Proof. unfold memoryClassLoaderHook, bufferArray_of. keep. Qed.

Lemma recorded_fileClassLoaderHook d this args :
  keeps recorded_since (fileClassLoaderHook original readBytes hashBytes d this args).
Proof.
  intros w. destruct args as [|[| dexPath | | | | | |] rest]; try reflexivity.
  - by apply recorded_nothing.
  - destruct (readBytes (process w) dexPath) as [content|] eqn:Hr.
    + rewrite (file_hook_captures _ _ _ _ _ _ _ content) by done.
      etrans; [|apply recorded_call_original].
      by apply (recorded_captured (basename dexPath +:+ "-" +:+ hashBytes content) content).
    + rewrite file_hook_fails by done. by apply recorded_nothing.
Qed.

Lemma recorded_invoke_implementation trace this obj1 obj2 :
  keeps recorded_since (invoke_implementation original trace this obj1 obj2).
Proof. unfold invoke_implementation. keep. Qed.

Lemma recorded_hookDynamicMethod className methodName :
  keeps recorded_since
    (hookDynamicMethod (App:=App) enumerateClassLoadersSync overloads_through
       className methodName).
Proof. unfold hookDynamicMethod. keep. Qed.
#[local] Hint Resolve recorded_hookDynamicMethod : frames.

Lemma recorded_loadClass_implementation classLoaderName this className :
  keeps recorded_since
    (loadClass_implementation original enumerateClassLoadersSync overloads_through
       classLoaderName this className).
Proof. unfold loadClass_implementation. keep. Qed.

Lemma recorded_dynamic_implementation loader cls meth o this args :
  keeps recorded_since
    (dynamic_implementation original inspect loader cls meth o this args).
Proof. unfold dynamic_implementation. keep. Qed.

Lemma recorded_implementation trace c :
  keeps recorded_since
    (implementation original enumerateClassLoadersSync overloads_through inspect
       readBytes hashBytes trace c).
Proof.
  destruct c; simpl.
  - apply recorded_invoke_implementation.
  - apply recorded_loadClass_implementation.
  - unfold init_implementation. destruct (hook d).
    + apply recorded_fileClassLoaderHook.
    + apply recorded_memoryClassLoaderHook.
  - apply recorded_dynamic_implementation.
Qed.

Lemma after_calls_recorded events (w : World App) :
  recorded_since w
    (after_calls original enumerateClassLoadersSync overloads_through inspect
       readBytes hashBytes events w).
Proof.
  revert w. induction events as [|[trace c] events IH]; intros w; simpl.
  - reflexivity.
  - etrans; [apply (recorded_implementation trace c w) | apply IH].
Qed.

(** X17. Whatever hooked methods the application calls, with whatever
    results, and whichever hooks throw on the way, the file names of the
    [dex] messages sent during these calls are the file names added to
    [dexFiles], one for one and in the same order: nothing sent before is
    taken back, and no name is recorded without its bytecode having been
    sent. *)
Theorem dex_files_match_messages (events : list (list StackTraceElement * Call))
    (w : World App) :
  let w' := after_calls original enumerateClassLoadersSync overloads_through inspect
              readBytes hashBytes events w in
  ∃ names,
    dex_filenames (outbox w') = dex_filenames (outbox w) ++ names
    ∧ dexFiles (runData w') = dexFiles (runData w) ++ names.
Proof.
  revert w. induction events as [|[trace c] events IH]; intros w; simpl.
  - exists []. by rewrite !app_nil_r.
  - destruct (recorded_implementation trace c w) as (first & Ho & Hd).
    destruct (IH (implementation original enumerateClassLoadersSync overloads_through
                    inspect readBytes hashBytes trace c w).2) as (rest & Ho' & Hd').
    exists (first ++ rest). rewrite Ho', Hd', Ho, Hd. by rewrite !app_assoc.
Qed.

(** X18. In a session that has started, at every moment between two calls
    of the application, [dexFiles] lists the file names of the [dex]
    messages sent so far, in the order they were sent: what the answer to
    [rundata] lists is what the controller has received. *)
Theorem rundata_lists_the_files_sent (available : string → bool)
    (has_overload : string → string → list string → bool)
    (hooks : string) (a : App) (started : World App)
    (events : list (list StackTraceElement * Call)) :
  main available has_overload hooks (initial a) = (Ok tt, started) →
  let w := after_calls original enumerateClassLoadersSync overloads_through inspect
             readBytes hashBytes events started in
  dexFiles (runData w) = dex_filenames (outbox w).
Proof.
  intros (_ & _ & Hout & Hrd)%main_started w.
  destruct (after_calls_recorded events started) as (names & Ho & Hd).
  fold w in Ho, Hd. by rewrite Ho, Hd, Hout, Hrd.
Qed.

End Recorded.

Lemma rundata_lists_the_files_sent_witness :
  let started := (main sample_available sample_overloads "" (initial O)).2 in
  let w := after_calls sample_original sample_loaders sample_dynamic sample_inspect
             sample_empty_files sample_digest
             [ ([], CallInit sample_descriptor (JRef 1) [JString "/data/a.dex"; JNull]);
               ([], CallInit sample_descriptor (JRef 2) [JNull; JNull]) ] started in
  dexFiles (runData w) = dex_filenames (outbox w).
Proof.
  apply (rundata_lists_the_files_sent sample_original sample_loaders sample_dynamic
           sample_inspect sample_empty_files sample_digest
           sample_available sample_overloads "" O).
  by vm_compute.
Defined.
